(** * Declaration source reconstruction (standardese, detail/tokenizer.cpp)

    A shallow embedding of the tokenizer's source reconstruction:
    [get_range], [fixup], [read_source], [read_range] and the token-stream
    helpers [skip_whitespace] and [skip], followed by the properties of the
    reconstruction rules.

    Text is a list of characters.  A C buffer (a [const char*]) is the list of
    the characters from the pointer up to and including the terminating NUL;
    reading through a pointer that has left the buffer has no defined result.
    Offsets are C [unsigned] values, kept in [Z] with the wrap-around written
    out. *)

From Stdlib Require Import Ascii String.
From Stdlib Require Import List ZArith Lia Bool Arith.
Import ListNotations.

(** ** Text *)

Definition text := list ascii.

Definition txt (s : string) : text := list_ascii_of_string s.

(** [std::string::c_str]: the characters followed by the terminating NUL. *)
Definition c_str (s : text) : text := s ++ [zero].

(** [std::isspace] in the "C" locale: space, \t, \n, \v, \f, \r; no
    character above 127 is a space. *)
Definition isspace (c : ascii) : bool :=
  let n := nat_of_ascii c in
  (n =? 32)%nat || ((9 <=? n)%nat && (n <=? 13)%nat).

Definition newline : ascii := ascii_of_nat 10.

(** ** libclang cursors *)

(** The cursor kinds the tokenizer names, and the rest of the enumeration by
    its numeric value. *)
Inductive CXCursorKind : Type :=
| CXCursor_StructDecl
| CXCursor_UnionDecl
| CXCursor_ClassDecl
| CXCursor_FunctionDecl
| CXCursor_ParmDecl
| CXCursor_TemplateTypeParameter
| CXCursor_NonTypeTemplateParameter
| CXCursor_TemplateTemplateParameter
| CXCursor_FunctionTemplate
| CXCursor_ClassTemplate
| CXCursor_ClassTemplatePartialSpecialization
| CXCursor_TypeAliasDecl
| CXCursor_CXXBaseSpecifier
| CXCursor_NoDeclFound
| CXCursor_CompoundStmt
| CXCursor_CXXTryStmt
| CXCursor_MacroDefinition
| CXCursor_OtherKind (code : nat).

Definition CXCursorKind_eq_dec (a b : CXCursorKind) : {a = b} + {a <> b}.
Proof. decide equality. apply Nat.eq_dec. Defined.

Definition kind_eqb (a b : CXCursorKind) : bool :=
  if CXCursorKind_eq_dec a b then true else false.

Definition CXFile := nat.

(** A cursor: its kind, the kind [clang_getTemplateCursorKind] reports, the
    spelling locations of the two ends of its extent (the file of the start
    location, and the two offsets), and its immediate children. *)
#[warnings="-register-all"]
Inductive cpp_cursor : Type :=
  Cursor {
    clang_getCursorKind : CXCursorKind;
    clang_getTemplateCursorKind : CXCursorKind;
    extent_file : option CXFile;
    extent_begin : Z;
    extent_end : Z;
    cursor_children : list cpp_cursor
  }.

(** libclang's [clang_isDeclaration] on the kinds above: the declaration
    kinds are the enumeration values 1..39 and, from 600 on, the extra
    declarations. *)
Definition libclang_isDeclaration (k : CXCursorKind) : bool :=
  match k with
  | CXCursor_StructDecl | CXCursor_UnionDecl | CXCursor_ClassDecl
  | CXCursor_FunctionDecl | CXCursor_ParmDecl
  | CXCursor_TemplateTypeParameter | CXCursor_NonTypeTemplateParameter
  | CXCursor_TemplateTemplateParameter | CXCursor_FunctionTemplate
  | CXCursor_ClassTemplate | CXCursor_ClassTemplatePartialSpecialization
  | CXCursor_TypeAliasDecl => true
  | CXCursor_CXXBaseSpecifier | CXCursor_NoDeclFound
  | CXCursor_CompoundStmt | CXCursor_CXXTryStmt
  | CXCursor_MacroDefinition => false
  | CXCursor_OtherKind n =>
      ((1 <=? n)%nat && (n <=? 39)%nat) || ((600 <=? n)%nat && (n <=? 603)%nat)
  end.

Inductive CXChildVisitResult : Type :=
| CXChildVisit_Break
| CXChildVisit_Continue.

(** ** Outcomes *)

Inductive source_location : Type :=
| source_location_of (cur : cpp_cursor).

Record parse_error : Type :=
  { error_location : source_location;
    error_message : text }.

(** What a call can do: return, throw a [parse_error], fail an [assert]
    (the process aborts), or leave the defined behaviour of the language
    (a read outside a buffer, [back] of an empty string). *)
Inductive outcome (A : Type) : Type :=
| Ok (a : A)
| Throw (e : parse_error)
| Abort
| Undefined.

Arguments Ok {A} a.
Arguments Throw {A} e.
Arguments Abort {A}.
Arguments Undefined {A}.

Definition bind {A B : Type} (m : outcome A) (k : A -> outcome B) : outcome B :=
  match m with
  | Ok a => k a
  | Throw e => Throw e
  | Abort => Abort
  | Undefined => Undefined
  end.

Declare Scope outcome_scope.
Delimit Scope outcome_scope with outcome.
Notation "x <- m ;; k" := (bind m (fun x => k))
  (at level 61, m at next level, right associativity) : outcome_scope.
Notation "' pat <- m ;; k" := (bind m (fun x => match x with pat => k end))
  (at level 61, pat pattern, m at next level, right associativity) : outcome_scope.
Notation "m ;; k" := (bind m (fun _ => k))
  (at level 61, right associativity) : outcome_scope.
Open Scope outcome_scope.

(** [assert(b)] *)
Definition assert (b : bool) : outcome unit :=
  if b then Ok tt else Abort.

(** [a && m] with the right operand evaluated only when the left holds. *)
Definition and_then (a : bool) (m : outcome bool) : outcome bool :=
  if a then m else Ok false.

(** ** Unsigned arithmetic *)

Definition UINT_MODULUS : Z := 2 ^ 32.

Definition to_unsigned (x : Z) : Z := x mod UINT_MODULUS.

Definition unsigned_range (x : Z) : Prop := (0 <= x < UINT_MODULUS)%Z.

(** ** std::string operations and pointer reads *)

(** [result.back()]: undefined on an empty string. *)
Definition back (s : text) : outcome ascii :=
  match rev s with
  | [] => Undefined
  | c :: _ => Ok c
  end.

Definition back_is (s : text) (c : ascii) : outcome bool :=
  b <- back s ;; Ok (Ascii.eqb b c).

Definition back_is_not (s : text) (c : ascii) : outcome bool :=
  b <- back s ;; Ok (negb (Ascii.eqb b c)).

(** [result.pop_back()] *)
Definition pop_back (s : text) : text := removelast s.

(** [result.erase(result.begin() + n, result.end())]: the iterator must lie
    within the string. *)
Definition erase_from (s : text) (n : Z) : outcome text :=
  if (n <=? Z.of_nat (length s))%Z then Ok (firstn (Z.to_nat n) s) else Undefined.

(** [*ptr]: the pointer must still be inside the buffer. *)
Definition deref (ptr : text) : outcome ascii :=
  match ptr with
  | [] => Undefined
  | c :: _ => Ok c
  end.

(** ** The range resolver *)

(** [get_range]: the file of the extent's start and the offsets of its two
    ends (the two reference parameters of the source are returned). *)
Definition get_range (cur : cpp_cursor) : option CXFile * Z * Z :=
  (extent_file cur, extent_begin cur, extent_end cur).

(** Modelled from the spec: [detail::visit_children] (cpp_cursor.hpp, not
    among the sources) is the provider's short-circuiting visitor over the
    immediate children: the callback runs on each child in order and the
    visit stops at the first [CXChildVisit_Break]. *)
Fixpoint visit_list {S : Type}
  (f : cpp_cursor -> S -> S * CXChildVisitResult)
  (children : list cpp_cursor) (s : S) : S :=
  match children with
  | [] => s
  | child :: rest =>
      match f child s with
      | (s', CXChildVisit_Break) => s'
      | (s', CXChildVisit_Continue) => visit_list f rest s'
      end
  end.

(** Modelled from the spec: the visit of the immediate children of [cur]. *)
Definition visit_children {S : Type} (cur : cpp_cursor)
  (f : cpp_cursor -> S -> S * CXChildVisitResult) (s : S) : S :=
  visit_list f (cursor_children cur) s.

(** ** The loops of [fixup] *)

(** [while (std::isspace( *ptr)) ++ptr;] *)
Fixpoint skip_spaces (ptr : text) : outcome text :=
  match ptr with
  | [] => Undefined
  | c :: ptr' => if isspace c then skip_spaces ptr' else Ok ptr
  end.

(** [for (auto bracket_count = 1; bracket_count != 0; ++ptr)]: copies the
    rest of a parenthesized group; returns the result and the pointer. *)
Fixpoint copy_parenthesized (ptr : text) (bracket_count : Z) (result : text)
  : outcome (text * text) :=
  if (bracket_count =? 0)%Z then Ok (result, ptr)
  else
    match ptr with
    | [] => Undefined
    | c :: ptr' =>
        let bracket_count :=
          if Ascii.eqb c "(" then (bracket_count + 1)%Z
          else if Ascii.eqb c ")" then (bracket_count - 1)%Z
          else bracket_count in
        copy_parenthesized ptr' bracket_count (result ++ [c])
    end.

(** The backward loop over [result.rbegin() .. result.rend()] of the macro
    rule: [true] when a closing parenthesis has to be appended. *)
Fixpoint macro_scan (iter : text) : bool :=
  match iter with
  | [] => false
  | c :: iter' =>
      if Ascii.eqb c ")" then false
      else if Ascii.eqb c "(" then true
      else macro_scan iter'
  end.

(** [while ( *ptr != ';') { result += *ptr; ++ptr; } result += ';';] *)
Fixpoint copy_until_semicolon (ptr : text) (result : text) : outcome text :=
  match ptr with
  | [] => Undefined
  | c :: ptr' =>
      if negb (Ascii.eqb c ";") then copy_until_semicolon ptr' (result ++ [c])
      else Ok (result ++ [";"%char])
  end.

(** [while ( *ptr != '\n' && *ptr) { result += *ptr; ++ptr; }] *)
Fixpoint copy_until_newline (ptr : text) (result : text) : outcome text :=
  match ptr with
  | [] => Undefined
  | c :: ptr' =>
      if negb (Ascii.eqb c newline) && negb (Ascii.eqb c zero)
      then copy_until_newline ptr' (result ++ [c])
      else Ok result
  end.

(** ** Kind tests of [fixup] *)

Definition is_templ_param (cur : cpp_cursor) : bool :=
  kind_eqb (clang_getCursorKind cur) CXCursor_TemplateTypeParameter
  || kind_eqb (clang_getCursorKind cur) CXCursor_NonTypeTemplateParameter
  || kind_eqb (clang_getCursorKind cur) CXCursor_TemplateTemplateParameter.

Definition is_function (cur : cpp_cursor) : bool :=
  kind_eqb (clang_getCursorKind cur) CXCursor_FunctionDecl
  || kind_eqb (clang_getTemplateCursorKind cur) CXCursor_FunctionDecl.

Definition is_class (cur : cpp_cursor) : bool :=
  kind_eqb (clang_getCursorKind cur) CXCursor_ClassDecl
  || kind_eqb (clang_getCursorKind cur) CXCursor_StructDecl
  || kind_eqb (clang_getCursorKind cur) CXCursor_UnionDecl
  || kind_eqb (clang_getCursorKind cur) CXCursor_ClassTemplate
  || kind_eqb (clang_getCursorKind cur) CXCursor_ClassTemplatePartialSpecialization.

(** The callback of the function rule: the begin offset of the first
    compound statement or try block among the children. *)
Definition body_visitor (child : cpp_cursor) (body_begin : Z)
  : Z * CXChildVisitResult :=
  if kind_eqb (clang_getCursorKind child) CXCursor_CompoundStmt
     || kind_eqb (clang_getCursorKind child) CXCursor_CXXTryStmt
  then
    let '(_, body_begin, ignored) := get_range child in
    (body_begin, CXChildVisit_Break)
  else (body_begin, CXChildVisit_Continue).

(** ** The token stream *)

Record token : Type :=
  { get_value : text;
    get_kind : nat }.

(** Modelled from the spec: [detail::token_stream] (tokenizer.hpp, not among
    the sources) is an ordered view with a movable cursor; it is kept here as
    the tokens from the cursor on.  [peek k] returns the token at lookahead
    offset [k] without consuming, [bump] consumes the current token.  Past
    the last token the stream shows the end-of-input token, whose text is
    empty. *)
Definition token_stream := list token.

Definition end_of_input : token := {| get_value := []; get_kind := 0 |}.

(** Modelled from the spec: [token_stream::peek], the token at lookahead
    offset [k], non-consuming. *)
Definition peek (stream : token_stream) (k : nat) : token :=
  nth k stream end_of_input.

(** Modelled from the spec: [token_stream::bump], which consumes the current
    token. *)
Definition bump (stream : token_stream) : token_stream := tl stream.

(** [value[0]]: the first character, the terminating NUL for an empty text. *)
Definition front (value : text) : ascii :=
  match value with
  | [] => zero
  | c :: _ => c
  end.

Definition text_eqb (a b : text) : bool :=
  if list_eq_dec ascii_dec a b then true else false.

(** [detail::skip_whitespace]: bumps while the current token starts with a
    space character. *)
Fixpoint skip_whitespace (stream : token_stream) : token_stream :=
  if isspace (front (get_value (peek stream 0))) then
    match stream with
    | [] => stream
    | _ :: rest => skip_whitespace rest
    end
  else stream.

(** [detail::skip(stream, cur, value)]: the outcome and the stream it leaves. *)
Definition skip (stream : token_stream) (cur : cpp_cursor) (value : text)
  : outcome unit * token_stream :=
  let val := peek stream 0 in
  if negb (text_eqb (get_value val) value) then
    (Throw {| error_location := source_location_of cur;
              error_message :=
                txt "expected '" ++ value ++ txt "' got '"
                    ++ get_value val ++ txt "'" |},
     stream)
  else (Ok tt, bump stream).

(** [detail::skip(stream, cur, values)] over an initializer list. *)
Fixpoint skip_list (stream : token_stream) (cur : cpp_cursor)
  (values : list text) : outcome unit * token_stream :=
  match values with
  | [] => (Ok tt, stream)
  | val :: values' =>
      match skip stream cur val with
      | (Ok _, stream) => skip_list (skip_whitespace stream) cur values'
      | failure => failure
      end
  end.

(** [detail::skip_if_token]: whether the token was skipped, and the stream
    it leaves. *)
Definition skip_if_token (stream : token_stream) (token : text)
  : bool * token_stream :=
  if negb (text_eqb (get_value (peek stream 0)) token) then (false, stream)
  else (true, skip_whitespace (bump stream)).

(** [detail::skip_attribute].  [detail::skip_bracket_count] is not among the
    sources: it is a parameter, an operation on the stream that can fail. *)
Definition skip_attribute
  (skip_bracket_count :
     token_stream -> cpp_cursor -> text -> text -> outcome unit * token_stream)
  (stream : token_stream) (cur : cpp_cursor) : outcome unit * token_stream :=
  if text_eqb (get_value (peek stream 0)) (txt "[")
     && text_eqb (get_value (peek stream 1)) (txt "[")
  then
    let stream := bump stream in (* opening *)
    match skip_bracket_count stream cur (txt "[") (txt "]") with
    | (Ok _, stream) => (Ok tt, bump stream) (* closing *)
    | failure => failure
    end
  else
    match skip_if_token stream (txt "__attribute__") with
    | (true, stream) =>
        match skip stream cur (txt "(") with
        | (Ok _, stream) =>
            match skip_bracket_count stream cur (txt "(") (txt ")") with
            | (Ok _, stream) => skip stream cur (txt ")")
            | failure => failure
            end
        | failure => failure
        end
    | (false, stream) => (Ok tt, stream)
    end.

(** ** Bounds and clamping (type_safe/bounded_type.hpp)

    The constraints and the clamping functions at integer types.  The bound
    has the type [T] of the constraint and the value its own type [U]: the
    comparison [u Op get_bound()] converts both operands to their common
    type, and an assignment of a bound to the value goes through
    [static_cast<U>]. *)

(** An integer type: its signedness, its width in bits and its conversion
    rank.  Its values are the integers of its range, kept in [Z]. *)
Record integer_type : Type :=
  { is_signed : bool;
    width : Z;
    rank : nat }.

Definition min_value (t : integer_type) : Z :=
  if is_signed t then (- 2 ^ (width t - 1))%Z else 0%Z.

Definition max_value (t : integer_type) : Z :=
  if is_signed t then (2 ^ (width t - 1) - 1)%Z else (2 ^ width t - 1)%Z.

Definition in_range (t : integer_type) (x : Z) : Prop :=
  (min_value t <= x <= max_value t)%Z.

(** [a] can represent all the values of [b]. *)
Definition represents (a b : integer_type) : bool :=
  (min_value a <=? min_value b)%Z && (max_value b <=? max_value a)%Z.

(** [static_cast<t>(x)], and every implicit conversion to [t]: the value of
    the range of [t] congruent to [x] modulo 2^width (for a signed [t], the
    conversion of two's complement). *)
Definition static_cast (t : integer_type) (x : Z) : Z :=
  if is_signed t
  then ((x + 2 ^ (width t - 1)) mod 2 ^ width t - 2 ^ (width t - 1))%Z
  else (x mod 2 ^ width t)%Z.

Definition unsigned_of (t : integer_type) : integer_type :=
  {| is_signed := false; width := width t; rank := rank t |}.

(** The four classes made by [TYPE_SAFE_DETAIL_MAKE(Name, Op)]: the bound. *)
Record less : Type := { less_get_bound : Z }.
Record less_equal : Type := { less_equal_get_bound : Z }.
Record greater : Type := { greater_get_bound : Z }.
Record greater_equal : Type := { greater_equal_get_bound : Z }.

Definition open : bool := false.
Definition closed : bool := true.

(** [bounded<T, LowerInclusive, UpperInclusive, ...>]: the two template flags
    and the two bounds. *)
Record bounded : Type :=
  { LowerInclusive : bool;
    UpperInclusive : bool;
    get_lower_bound : Z;
    get_upper_bound : Z }.

Definition open_interval (lower upper : Z) : bounded :=
  {| LowerInclusive := open; UpperInclusive := open;
     get_lower_bound := lower; get_upper_bound := upper |}.

Definition closed_interval (lower upper : Z) : bounded :=
  {| LowerInclusive := closed; UpperInclusive := closed;
     get_lower_bound := lower; get_upper_bound := upper |}.

Section Bounds.

(** The type [int] of the platform. *)
Variable int : integer_type.

(** Integral promotion: a type of lower rank than [int] becomes [int] when
    [int] represents all its values, [unsigned int] otherwise. *)
Definition promote (t : integer_type) : integer_type :=
  if (rank t <? rank int)%nat
  then if represents int t then int else unsigned_of int
  else t.

(** The usual arithmetic conversions: the common type of two operands. *)
Definition common_type (a b : integer_type) : integer_type :=
  let a := promote a in
  let b := promote b in
  if Bool.eqb (is_signed a) (is_signed b)
  then if (rank a <? rank b)%nat then b else a
  else
    let u := if is_signed a then b else a in
    let s := if is_signed a then a else b in
    if (rank s <=? rank u)%nat then u
    else if represents s u then s
    else unsigned_of s.

(** [u Op bound] for [u] of type [U] and [bound] of type [T]. *)
Definition converted (U T : integer_type) (op : Z -> Z -> bool) (u bound : Z)
  : bool :=
  let C := common_type U T in
  op (static_cast C u) (static_cast C bound).

(** The call operators [u Op get_bound()]. *)
Definition less_call (U T : integer_type) (p : less) (u : Z) : bool :=
  converted U T Z.ltb u (less_get_bound p).

Definition less_equal_call (U T : integer_type) (p : less_equal) (u : Z) : bool :=
  converted U T Z.leb u (less_equal_get_bound p).

Definition greater_call (U T : integer_type) (p : greater) (u : Z) : bool :=
  converted U T Z.gtb u (greater_get_bound p).

Definition greater_equal_call (U T : integer_type) (p : greater_equal) (u : Z)
  : bool :=
  converted U T Z.geb u (greater_equal_get_bound p).

(** [lower()(u)] with [lower_bound_t]: [greater_equal] when inclusive,
    [greater] otherwise. *)
Definition lower_call (U T : integer_type) (b : bounded) (u : Z) : bool :=
  if LowerInclusive b
  then greater_equal_call U T {| greater_equal_get_bound := get_lower_bound b |} u
  else greater_call U T {| greater_get_bound := get_lower_bound b |} u.

(** [upper()(u)] with [upper_bound_t]. *)
Definition upper_call (U T : integer_type) (b : bounded) (u : Z) : bool :=
  if UpperInclusive b
  then less_equal_call U T {| less_equal_get_bound := get_upper_bound b |} u
  else less_call U T {| less_get_bound := get_upper_bound b |} u.

(** [bounded::operator()] *)
Definition bounded_call (U T : integer_type) (b : bounded) (u : Z) : bool :=
  lower_call U T b u && upper_call U T b u.

(** [clamp(interval, val)] for [val] of type [U]: the new value of [val]. *)
Definition clamp (U T : integer_type) (interval : bounded) (val : Z) : Z :=
  if converted U T Z.ltb val (get_lower_bound interval)
  then static_cast U (get_lower_bound interval)
  else if converted U T Z.gtb val (get_upper_bound interval)
  then static_cast U (get_upper_bound interval)
  else val.

(** [clamping_verifier::verify(val, less_equal)] *)
Definition verify_less_equal (Value T : integer_type) (val : Z) (p : less_equal)
  : Z :=
  if negb (less_equal_call Value T p val)
  then static_cast Value (less_equal_get_bound p)
  else val.

(** [clamping_verifier::verify(val, greater_equal)] *)
Definition verify_greater_equal (Value T : integer_type) (val : Z)
  (p : greater_equal) : Z :=
  if negb (greater_equal_call Value T p val)
  then static_cast Value (greater_equal_get_bound p)
  else val.

(** [clamping_verifier::verify(val, closed_interval)] *)
Definition verify_closed_interval (Value T : integer_type) (val : Z)
  (interval : bounded) : Z :=
  clamp Value T interval val.

(** An integer type as the language has them: at least one bit wide, and no
    wider than [int] when its rank is lower. *)
Definition standard_type (t : integer_type) : Prop :=
  (0 < width t)%Z /\ ((rank t < rank int)%nat -> (width t <= width int)%Z).

End Bounds.

(** The types [int] and [unsigned int] of the common data models. *)
Definition int32 : integer_type :=
  {| is_signed := true; width := 32; rank := 3 |}.

Definition uint32 : integer_type := unsigned_of int32.

Section Reconstruction.

(** libclang's [clang_isDeclaration]. *)
Variable clang_isDeclaration : CXCursorKind -> bool.

(** The guard of the last branch of [fixup]. *)
Definition is_other_declaration (cur : cpp_cursor) : bool :=
  clang_isDeclaration (clang_getCursorKind cur)
  && negb (kind_eqb (clang_getCursorKind cur) CXCursor_ParmDecl)
  && negb (kind_eqb (clang_getCursorKind cur) CXCursor_TemplateTypeParameter)
  && negb (kind_eqb (clang_getCursorKind cur) CXCursor_NonTypeTemplateParameter)
  && negb (kind_eqb (clang_getCursorKind cur) CXCursor_TemplateTemplateParameter)
  && negb (kind_eqb (clang_getCursorKind cur) CXCursor_CXXBaseSpecifier).

(** ** [fixup] *)

Definition fixup (cur : cpp_cursor) (ptr : text) (result : text)
  (begin_offset : Z) : outcome text :=
  (* for a function, shrink to declaration only *)
  result <-
    (shrink <- and_then (is_function cur) (back_is result "}") ;;
     if shrink then
       let body_begin := visit_children cur body_visitor 0%Z in
       assert (body_begin >? begin_offset)%Z ;;
       let actual_size := to_unsigned (body_begin - begin_offset) in
       result <- erase_from result actual_size ;;
       Ok (result ++ [";"%char])
     else
       (* for a class add semicolon *)
       unterminated <- and_then (is_class cur) (back_is_not result ";") ;;
       if unterminated then Ok (result ++ [";"%char]) else Ok result) ;;
  (* maximal munch fixup *)
  if is_templ_param cur then
    ptr <- skip_spaces ptr ;;
    '(result, ptr) <-
      match ptr with
      | [] => Undefined
      | c :: ptr' =>
          if Ascii.eqb c "(" then copy_parenthesized ptr' 1%Z (result ++ [c])
          else Ok (result, ptr)
      end ;;
    c <- deref ptr ;;
    munched <-
      and_then (negb (Ascii.eqb c ">") && negb (Ascii.eqb c ","))
               (back_is result ">") ;;
    if munched then Ok (pop_back result) else Ok result
  else if kind_eqb (clang_getCursorKind cur) CXCursor_MacroDefinition then
    if macro_scan (rev result) then Ok (result ++ [")"%char]) else Ok result
  else
    unfinished <- and_then (is_function cur) (back_is_not result ";") ;;
    if unfinished then copy_until_semicolon ptr result
    else
      unfinished <-
        and_then (kind_eqb (clang_getCursorKind cur) CXCursor_TypeAliasDecl)
                 (back_is_not result ";") ;;
      if unfinished then copy_until_semicolon ptr result
      else if is_other_declaration cur then copy_until_newline ptr result
      else Ok result.

(** ** The tokenizer's entry points *)

Record translation_unit : Type :=
  { get_cxfile : CXFile;
    get_source : text }.

Definition clang_File_isEqual (a b : CXFile) : bool := (a =? b)%nat.

(** [std::string result(source + begin_offset, source + end_offset)]: both
    pointers must lie within the buffer. *)
Definition slice (source : text) (begin_offset end_offset : Z) : outcome text :=
  if (end_offset <=? Z.of_nat (length source))%Z
  then Ok (firstn (Z.to_nat (end_offset - begin_offset))
                  (skipn (Z.to_nat begin_offset) source))
  else Undefined.

Definition read_source (tu : translation_unit) (cur : cpp_cursor) : outcome text :=
  let '(file, begin_offset, end_offset) := get_range cur in
  match file with
  | None => Ok []
  | Some file =>
      assert (clang_File_isEqual file (get_cxfile tu)) ;;
      assert (end_offset >? begin_offset)%Z ;;
      let source := c_str (get_source tu) in
      result <- slice source begin_offset end_offset ;;
      fixup cur (skipn (Z.to_nat end_offset) source) result begin_offset
  end.

(** [read_range]: the file and the two offsets written through the reference
    parameters. *)
Definition read_range (tu : translation_unit) (cur : cpp_cursor)
  : outcome (option CXFile * Z * Z) :=
  let '(file, begin_offset, end_offset) := get_range cur in
  (* we need to handle the fixup, so change end_offset *)
  source <- read_source tu cur ;;
  let end_offset := to_unsigned (begin_offset + Z.of_nat (length source)) in
  Ok (file, begin_offset, end_offset).

(** The constructor of [detail::tokenizer]: the source the tokens are read
    from, with the trailing newline. *)
Definition tokenizer_source (tu : translation_unit) (cur : cpp_cursor) : outcome text :=
  source_ <- read_source tu cur ;;
  Ok (source_ ++ [newline]).

(** ** The rules of the specification

    The seven correction rules of the reconstruction engine, each with its
    guard, and the dispatch the specification words: the first rule, in
    priority order, whose guard holds. *)

Inductive rule : Type :=
| Rule_a   (* function whose slice ends in a body *)
| Rule_b   (* class-like declaration without terminator *)
| Rule_c   (* template parameter *)
| Rule_d   (* macro definition *)
| Rule_e   (* function declaration without terminator *)
| Rule_f   (* type alias without terminator *)
| Rule_g.  (* any other declaration *)

Definition guard (r : rule) (cur : cpp_cursor) (result : text) : outcome bool :=
  match r with
  | Rule_a => and_then (is_function cur) (back_is result "}")
  | Rule_b => and_then (is_class cur) (back_is_not result ";")
  | Rule_c => Ok (is_templ_param cur)
  | Rule_d => Ok (kind_eqb (clang_getCursorKind cur) CXCursor_MacroDefinition)
  | Rule_e => and_then (is_function cur) (back_is_not result ";")
  | Rule_f => and_then (kind_eqb (clang_getCursorKind cur) CXCursor_TypeAliasDecl)
                       (back_is_not result ";")
  | Rule_g => Ok (is_other_declaration cur)
  end.

(** The begin offset of the first child that is a compound statement or a
    try block, [None] when there is none. *)
Fixpoint first_body (children : list cpp_cursor) : option Z :=
  match children with
  | [] => None
  | child :: rest =>
      match clang_getCursorKind child with
      | CXCursor_CompoundStmt | CXCursor_CXXTryStmt => Some (extent_begin child)
      | _ => first_body rest
      end
  end.

Definition apply_rule (r : rule) (cur : cpp_cursor) (ptr : text) (result : text)
  (begin_offset : Z) : outcome text :=
  match r with
  | Rule_a =>
      let split_point :=
        match first_body (cursor_children cur) with
        | Some b => b
        | None => 0%Z
        end in
      assert (split_point >? begin_offset)%Z ;;
      result <- erase_from result (to_unsigned (split_point - begin_offset)) ;;
      Ok (result ++ [";"%char])
  | Rule_b => Ok (result ++ [";"%char])
  | Rule_c =>
      ptr <- skip_spaces ptr ;;
      '(result, ptr) <-
        match ptr with
        | [] => Undefined
        | c :: ptr' =>
            if Ascii.eqb c "(" then copy_parenthesized ptr' 1%Z (result ++ [c])
            else Ok (result, ptr)
        end ;;
      c <- deref ptr ;;
      if negb (Ascii.eqb c ">") && negb (Ascii.eqb c ",") then
        b <- back result ;;
        if Ascii.eqb b ">" then Ok (pop_back result) else Ok result
      else Ok result
  | Rule_d =>
      if macro_scan (rev result) then Ok (result ++ [")"%char]) else Ok result
  | Rule_e | Rule_f => copy_until_semicolon ptr result
  | Rule_g => copy_until_newline ptr result
  end.

(** The first rule of [rules] whose guard holds. *)
Fixpoint select (rules : list rule) (cur : cpp_cursor) (result : text)
  : outcome (option rule) :=
  match rules with
  | [] => Ok None
  | r :: rules' =>
      fires <- guard r cur result ;;
      if fires then Ok (Some r) else select rules' cur result
  end.

Definition apply_selected (r : option rule) (cur : cpp_cursor) (ptr : text)
  (result : text) (begin_offset : Z) : outcome text :=
  match r with
  | Some r => apply_rule r cur ptr result begin_offset
  | None => Ok result
  end.

(** The dispatch as the specification words it: exactly one rule, the first
    of (a)..(g) that matches, or the slice unchanged. *)
Definition spec_fixup (cur : cpp_cursor) (ptr : text) (result : text)
  (begin_offset : Z) : outcome text :=
  r <- select [Rule_a; Rule_b; Rule_c; Rule_d; Rule_e; Rule_f; Rule_g] cur result ;;
  apply_selected r cur ptr result begin_offset.

(** The dispatch of the source: one rule of (a), (b), then one rule of
    (c)..(g) on the text the first left. *)
Definition staged_fixup (cur : cpp_cursor) (ptr : text) (result : text)
  (begin_offset : Z) : outcome text :=
  r1 <- select [Rule_a; Rule_b] cur result ;;
  result <- apply_selected r1 cur ptr result begin_offset ;;
  r2 <- select [Rule_c; Rule_d; Rule_e; Rule_f; Rule_g] cur result ;;
  apply_selected r2 cur ptr result begin_offset.

(** ** Vocabulary of the statements *)

(** The characters of a buffer before its first newline or NUL. *)
Fixpoint until_newline (ptr : text) : text :=
  match ptr with
  | [] => []
  | c :: ptr' =>
      if Ascii.eqb c newline || Ascii.eqb c zero then []
      else c :: until_newline ptr'
  end.

(** The characters of a buffer before its first semicolon. *)
Fixpoint until_semicolon (ptr : text) : text :=
  match ptr with
  | [] => []
  | c :: ptr' => if Ascii.eqb c ";" then [] else c :: until_semicolon ptr'
  end.

(** Opening minus closing parentheses. *)
Fixpoint paren_depth (s : text) : Z :=
  match s with
  | [] => 0%Z
  | c :: s' =>
      ((if Ascii.eqb c "(" then 1 else if Ascii.eqb c ")" then -1 else 0)
       + paren_depth s')%Z
  end.

Definition no_paren (c : ascii) : Prop := c <> "("%char /\ c <> ")"%char.

(** A compound statement or a try block. *)
Definition is_body (child : cpp_cursor) : bool :=
  kind_eqb (clang_getCursorKind child) CXCursor_CompoundStmt
  || kind_eqb (clang_getCursorKind child) CXCursor_CXXTryStmt.

(** What the last branch of [fixup] copies for a node it applies to: the
    rest of the tail's line. *)
Definition rest_of_line (cur : cpp_cursor) (ptr : text) : text :=
  if is_other_declaration cur then until_newline ptr else [].



(** ** Sample inputs *)

Definition leaf (kind : CXCursorKind) : cpp_cursor :=
  Cursor kind CXCursor_NoDeclFound (Some 1) 0 0 [].

Definition body_at (offset : Z) : cpp_cursor :=
  Cursor CXCursor_CompoundStmt CXCursor_NoDeclFound (Some 1) offset 0 [].

(** A function definition followed by a comment on its line.  The extent of
    [f] is the definition, 26 characters; its body begins at offset 13. *)
Definition function_unit : translation_unit :=
  {| get_cxfile := 1;
     get_source := txt "int f(int x) { return x; } // identity" ++ [newline] |}.

Definition function_f : cpp_cursor :=
  Cursor CXCursor_FunctionDecl CXCursor_NoDeclFound (Some 1) 0 26
         [leaf CXCursor_ParmDecl; body_at 13].

(** A class definition.  The extent of [S] ends after the closing brace, 19
    characters, before the terminator. *)
Definition struct_unit : translation_unit :=
  {| get_cxfile := 1;
     get_source := txt "struct S { int x; };" ++ [newline] |}.

Definition struct_S : cpp_cursor :=
  Cursor CXCursor_StructDecl CXCursor_NoDeclFound (Some 1) 0 19 [].

(** A function declaration whose terminator comes from a macro defined
    elsewhere: the text of the file has no semicolon after the extent of
    [f], 8 characters. *)
Definition macro_terminated_unit : translation_unit :=
  {| get_cxfile := 1;
     get_source := txt "void f() SEMICOLON" ++ [newline] |}.

Definition macro_terminated_f : cpp_cursor :=
  Cursor CXCursor_FunctionDecl CXCursor_NoDeclFound (Some 1) 0 8 [].

Definition builtin_macro : cpp_cursor :=
  Cursor CXCursor_MacroDefinition CXCursor_NoDeclFound None 0 0 [].

Definition tok (s : string) : token := {| get_value := txt s; get_kind := 0 |}.

(** ** Vocabulary of the further statements *)

(** An outcome that is a result or undefined behaviour: neither a thrown
    error nor a failed assertion. *)
Definition quiet {A : Type} (o : outcome A) : Prop :=
  match o with
  | Ok _ | Undefined => True
  | Throw _ | Abort => False
  end.

Definition no_throw {A : Type} (o : outcome A) : Prop :=
  match o with
  | Throw _ => False
  | _ => True
  end.

(** A token whose text starts with a space character. *)
Definition is_whitespace (t : token) : bool := isspace (front (get_value t)).

(** The text of the error [skip] throws. *)
Definition mismatch (cur : cpp_cursor) (expected actual : text) : parse_error :=
  {| error_location := source_location_of cur;
     error_message :=
       txt "expected '" ++ expected ++ txt "' got '" ++ actual ++ txt "'" |}.

(** A variable declaration [int x = 5], kind [CXCursor_VarDecl] (9), whose
    extent stops before the terminator. *)
Definition variable_x : cpp_cursor :=
  Cursor (CXCursor_OtherKind 9) CXCursor_NoDeclFound (Some 1) 0 9 [].

Definition variable_unit : translation_unit :=
  {| get_cxfile := 1;
     get_source := txt "int x = 5; // five" ++ [newline] ++ txt "int y;" |}.

(** A [skip_bracket_count] for the samples: it consumes nothing. *)
Definition no_bracket_count (stream : token_stream) (cur : cpp_cursor)
  (open close : text) : outcome unit * token_stream :=
  (Ok tt, stream).

(** No parenthesis of [rest] closes the group opened before it: the depth,
    one at the start, stays positive over every prefix. *)
Definition never_closes (rest : text) : bool :=
  forallb (fun k => (0 <? 1 + paren_depth (firstn k rest))%Z)
          (seq 0 (S (length rest))).

(** A stream made of tokens, each followed by its whitespace tokens, and
    then [rest]. *)
Fixpoint spaced (items : list (token * list token)) (rest : token_stream)
  : token_stream :=
  match items with
  | [] => rest
  | (t, ws) :: items' => t :: ws ++ spaced items' rest
  end.

(** ** Proof steps *)

Ltac case_outcome m :=
  destruct m as [?| | |]; simpl; try reflexivity.

Ltac case_guard m :=
  destruct m as [[|]| | |]; simpl; try reflexivity.

(** Both sides run the same computation first: case on its outcome. *)
Ltac same_head :=
  match goal with
  | |- bind ?m _ = bind ?m' _ =>
      change m' with m; destruct m as [?| | |]; cbn [bind]; try reflexivity
  end.

(** The second statement of [fixup] against the dispatch over the rules
    (c)..(g). *)
Ltac second_stage :=
  unfold select, guard, apply_selected, apply_rule;
  destruct (is_templ_param _); simpl;
  [ same_head; same_head;
    match goal with
    | |- (let (_, _) := ?x in _) = _ => destruct x
    end;
    same_head;
    match goal with
    | |- context [and_then ?c _] => destruct c; simpl; try reflexivity
    end;
    unfold back_is;
    match goal with
    | |- context [back ?r] => case_outcome (back r)
    end
  | destruct (kind_eqb _ CXCursor_MacroDefinition); simpl; [reflexivity|];
    match goal with
    | |- context [and_then (is_function ?c) ?m] =>
        case_guard (and_then (is_function c) m)
    end;
    match goal with
    | |- context [and_then (kind_eqb ?k CXCursor_TypeAliasDecl) ?m] =>
        case_guard (and_then (kind_eqb k CXCursor_TypeAliasDecl) m)
    end;
    destruct (is_other_declaration _); reflexivity ].

(** * Properties *)

(** ** Outcomes and text *)

Lemma back_last : forall (s : text) (c : ascii), back (s ++ [c]) = Ok c.
Proof. intros s c. unfold back. rewrite rev_app_distr. reflexivity. Qed.

Lemma back_nonempty : forall s : text, s <> [] -> exists c, back s = Ok c.
Proof.
  intros s Hs. destruct (exists_last Hs) as [s' [c ->]].
  exists c. apply back_last.
Qed.

Lemma bind_Ok_inv : forall (A B : Type) (m : outcome A) (k : A -> outcome B) (b : B),
  bind m k = Ok b -> exists a, m = Ok a /\ k a = Ok b.
Proof. intros A B [a| | |] k b H; try discriminate. exists a. auto. Qed.

(** ** The children visitor *)

Lemma first_body_visit : forall children z,
  visit_list body_visitor children z =
  match first_body children with Some b => b | None => z end.
Proof.
  induction children as [|child rest IH]; intros z; simpl; [reflexivity|].
  unfold body_visitor at 1. simpl.
  destruct (clang_getCursorKind child); simpl; try apply IH; reflexivity.
Qed.

Lemma first_body_split : forall pre child post,
  Forall (fun c => is_body c = false) pre ->
  is_body child = true ->
  first_body (pre ++ child :: post) = Some (extent_begin child).
Proof.
  induction pre as [|c pre IH]; intros child post Hpre Hchild; simpl.
  - unfold is_body in Hchild.
    destruct (clang_getCursorKind child); try discriminate; reflexivity.
  - inversion Hpre as [|? ? Hc Hpre']; subst. unfold is_body in Hc.
    destruct (clang_getCursorKind c); try discriminate; auto.
Qed.

(** ** The two stages of [fixup] *)

(** The two statements of [fixup] are two dispatches in sequence. *)
Lemma fixup_staged : forall cur ptr result begin_offset,
  fixup cur ptr result begin_offset = staged_fixup cur ptr result begin_offset.
Proof.
  intros cur ptr result b.
  unfold fixup, staged_fixup, visit_children.
  rewrite first_body_visit.
  unfold select at 1. unfold guard at 1 2.
  case_guard (and_then (is_function cur) (back_is result "}")).
  - destruct (assert _); simpl; try reflexivity.
    destruct (erase_from _ _) as [r1| | |]; simpl; try reflexivity.
    second_stage.
  - case_guard (and_then (is_class cur) (back_is_not result ";"));
      second_stage.
Qed.

Lemma select_none_split : forall rules1 rules2 cur result,
  select (rules1 ++ rules2) cur result = Ok None ->
  select rules1 cur result = Ok None /\ select rules2 cur result = Ok None.
Proof.
  induction rules1 as [|r rules1 IH]; intros rules2 cur result H; simpl in *.
  - auto.
  - destruct (guard r cur result) as [[|]| | |]; simpl in *; try discriminate.
    auto.
Qed.

Lemma select_first_stage_none : forall rules1 rules2 cur result,
  select rules1 cur result = Ok None ->
  select (rules1 ++ rules2) cur result = select rules2 cur result.
Proof.
  induction rules1 as [|r rules1 IH]; intros rules2 cur result H; simpl in *.
  - reflexivity.
  - destruct (guard r cur result) as [[|]| | |]; simpl in *; try discriminate.
    auto.
Qed.

(** Where the single dispatch holds.  When neither rule (a) nor rule (b)
    matches, [fixup] applies exactly one rule, the first of (c)..(g) whose
    guard holds, as the single dispatch of the specification does; and when no
    rule of (a)..(g) matches, the slice is returned unchanged. *)
Lemma fixup_single_dispatch : forall cur ptr result begin_offset,
  (select [Rule_a; Rule_b] cur result = Ok None ->
   fixup cur ptr result begin_offset = spec_fixup cur ptr result begin_offset
   /\ fixup cur ptr result begin_offset
      = (r <- select [Rule_c; Rule_d; Rule_e; Rule_f; Rule_g] cur result ;;
         apply_selected r cur ptr result begin_offset))
  /\ (select [Rule_a; Rule_b; Rule_c; Rule_d; Rule_e; Rule_f; Rule_g] cur result
        = Ok None ->
      fixup cur ptr result begin_offset = Ok result).
Proof.
  intros cur ptr result b.
  assert (Hsecond : select [Rule_a; Rule_b] cur result = Ok None ->
    fixup cur ptr result b
    = (r <- select [Rule_c; Rule_d; Rule_e; Rule_f; Rule_g] cur result ;;
       apply_selected r cur ptr result b)).
  { intros H. rewrite fixup_staged. unfold staged_fixup.
    rewrite H. reflexivity. }
  split.
  - intros H. split; [|exact (Hsecond H)].
    rewrite (Hsecond H). unfold spec_fixup.
    change [Rule_a; Rule_b; Rule_c; Rule_d; Rule_e; Rule_f; Rule_g]
      with ([Rule_a; Rule_b] ++ [Rule_c; Rule_d; Rule_e; Rule_f; Rule_g]).
    now rewrite (select_first_stage_none _ _ _ _ H).
  - intros H.
    destruct (select_none_split [Rule_a; Rule_b]
                [Rule_c; Rule_d; Rule_e; Rule_f; Rule_g] cur result H) as [H1 H2].
    rewrite (Hsecond H1), H2. reflexivity.
Qed.

(** ** The forward scans *)

Lemma copy_until_newline_spec : forall ptr result,
  In zero ptr ->
  copy_until_newline ptr result = Ok (result ++ until_newline ptr).
Proof.
  induction ptr as [|c ptr IH]; intros result Hz; [contradiction|]. simpl.
  destruct (Ascii.eqb_spec c newline) as [->|Hn]; simpl.
  - now rewrite app_nil_r.
  - destruct (Ascii.eqb_spec c zero) as [->|Hc]; simpl.
    + now rewrite app_nil_r.
    + destruct Hz as [Hz|Hz]; [congruence|].
      rewrite IH by assumption. now rewrite <- app_assoc.
Qed.

Lemma until_newline_prefix : forall ptr,
  In zero ptr ->
  exists c rest, ptr = until_newline ptr ++ c :: rest
                 /\ (c = newline \/ c = zero).
Proof.
  induction ptr as [|c ptr IH]; intros Hz; [contradiction|]. simpl.
  destruct (Ascii.eqb_spec c newline) as [->|Hn]; simpl.
  - exists newline, ptr. auto.
  - destruct (Ascii.eqb_spec c zero) as [->|Hc]; simpl.
    + exists zero, ptr. auto.
    + destruct Hz as [Hz|Hz]; [congruence|].
      destruct (IH Hz) as [c' [rest [E Hc']]].
      exists c', rest. split; [now rewrite <- E | assumption].
Qed.

Lemma until_newline_length : forall ptr,
  In zero ptr -> length (until_newline ptr) < length ptr.
Proof.
  intros ptr Hz. destruct (until_newline_prefix ptr Hz) as [c [rest [E _]]].
  rewrite E at 2. rewrite length_app. simpl. lia.
Qed.

Lemma copy_until_semicolon_spec : forall ptr result,
  In ";"%char ptr ->
  copy_until_semicolon ptr result
  = Ok (result ++ until_semicolon ptr ++ [";"%char]).
Proof.
  induction ptr as [|c ptr IH]; intros result Hs; [contradiction|]. simpl.
  destruct (Ascii.eqb_spec c ";") as [->|Hn]; simpl; [reflexivity|].
  destruct Hs as [Hs|Hs]; [congruence|].
  rewrite IH by assumption. now rewrite <- app_assoc.
Qed.

Lemma copy_until_semicolon_leaves_buffer : forall ptr result,
  ~ In ";"%char ptr -> copy_until_semicolon ptr result = Undefined.
Proof.
  induction ptr as [|c ptr IH]; intros result Hs; [reflexivity|]. simpl.
  destruct (Ascii.eqb_spec c ";") as [->|Hn]; simpl.
  - exfalso. apply Hs. now left.
  - apply IH. intros H. apply Hs. now right.
Qed.

Lemma until_semicolon_length : forall ptr,
  In ";"%char ptr -> length (until_semicolon ptr) < length ptr.
Proof.
  induction ptr as [|c ptr IH]; intros Hs; [contradiction|]. simpl.
  destruct (Ascii.eqb_spec c ";") as [->|Hn]; simpl; [lia|].
  destruct Hs as [Hs|Hs]; [congruence|]. apply IH in Hs. lia.
Qed.

(** ** Kinds *)

Lemma kind_eqb_neq : forall a b, a <> b -> kind_eqb a b = false.
Proof.
  intros a b H. unfold kind_eqb.
  destruct (CXCursorKind_eq_dec a b); [contradiction | reflexivity].
Qed.

Lemma class_kind_tests : forall cur,
  is_class cur = true ->
  is_templ_param cur = false
  /\ kind_eqb (clang_getCursorKind cur) CXCursor_MacroDefinition = false
  /\ kind_eqb (clang_getCursorKind cur) CXCursor_TypeAliasDecl = false.
Proof.
  intros cur. unfold is_class, is_templ_param.
  destruct (clang_getCursorKind cur); simpl; try discriminate; auto.
Qed.

Lemma back_is_not_last : forall s : text,
  back_is_not (s ++ [";"%char]) ";" = Ok false.
Proof. intros s. unfold back_is_not. now rewrite back_last. Qed.

Lemma to_unsigned_small : forall x, unsigned_range x -> to_unsigned x = x.
Proof. intros x H. unfold to_unsigned. apply Z.mod_small. exact H. Qed.

(** ** The function-body rule *)

(** For a function node whose slice ends with a body marker and whose first
    compound-statement or try-block child begins strictly after the
    declaration's begin and within the slice, the reconstructed text is the
    slice cut at the begin of that child, one terminator, and then whatever
    the last branch of [fixup] copies: the rest of the tail's line. *)
Lemma function_body_is_cut : forall cur ptr result begin_offset pre child post,
  is_function cur = true ->
  is_templ_param cur = false ->
  clang_getCursorKind cur <> CXCursor_MacroDefinition ->
  back result = Ok "}"%char ->
  cursor_children cur = pre ++ child :: post ->
  Forall (fun c => is_body c = false) pre ->
  is_body child = true ->
  unsigned_range begin_offset ->
  unsigned_range (extent_begin child) ->
  (begin_offset < extent_begin child <= begin_offset + Z.of_nat (length result))%Z ->
  In zero ptr ->
  fixup cur ptr result begin_offset
  = Ok (firstn (Z.to_nat (extent_begin child - begin_offset)) result
          ++ [";"%char]
          ++ rest_of_line cur ptr).
Proof.
  intros cur ptr result b pre child post Hfun Htp Hmacro Hback Hch Hpre Hbody
         Hb Hsplit Hlt Hz.
  unfold fixup, visit_children.
  rewrite first_body_visit, Hch, (first_body_split pre child post Hpre Hbody).
  rewrite Hfun. unfold back_is at 1. rewrite Hback. cbn [and_then bind].
  change (Ascii.eqb "}" "}") with true. cbn iota.
  replace (extent_begin child >? b)%Z with true by (symmetry; lia).
  cbn [assert bind].
  rewrite to_unsigned_small by (unfold unsigned_range in *; lia).
  unfold erase_from.
  replace (extent_begin child - b <=? Z.of_nat (length result))%Z with true
    by (symmetry; lia).
  cbn [bind]. rewrite Htp.
  rewrite (kind_eqb_neq _ _ Hmacro).
  rewrite back_is_not_last. cbn [bind].
  assert (Halias : forall a, and_then a (Ok false) = Ok false)
    by (intros [|]; reflexivity).
  rewrite Halias. cbn [bind].
  unfold rest_of_line. destruct (is_other_declaration cur).
  - rewrite copy_until_newline_spec by assumption. now rewrite app_assoc.
  - now rewrite app_nil_r.
Qed.

(** ** The class rule *)

Lemma class_fixup : forall cur ptr result begin_offset c,
  is_class cur = true ->
  is_function cur = false ->
  back result = Ok c ->
  In zero ptr ->
  fixup cur ptr result begin_offset
  = Ok ((if Ascii.eqb c ";" then result else result ++ [";"%char])
          ++ rest_of_line cur ptr).
Proof.
  intros cur ptr result b c Hclass Hfun Hback Hz.
  destruct (class_kind_tests cur Hclass) as [Htp [Hmacro Halias]].
  unfold fixup, rest_of_line. rewrite Hfun, Hclass, Htp, Hmacro, Halias.
  unfold back_is_not. rewrite Hback. cbn [and_then bind].
  destruct (Ascii.eqb c ";"); cbn [negb bind];
    (destruct (is_other_declaration cur);
     [ now rewrite copy_until_newline_spec by assumption
     | now rewrite app_nil_r ]).
Qed.

(** For a class-like node (that is not also a function) with a non-empty
    slice and a NUL-terminated tail, the reconstructed text is the slice,
    with one terminator appended when it does not already end in one,
    followed by the rest of the tail's line when the last branch of [fixup]
    applies to the node's kind.  When nothing of the tail is copied the text
    ends with a terminator and reconstructing it again changes nothing. *)
Lemma class_terminator_rule : forall cur ptr result begin_offset,
  is_class cur = true ->
  is_function cur = false ->
  result <> [] ->
  In zero ptr ->
  (back result = Ok ";"%char ->
   fixup cur ptr result begin_offset = Ok (result ++ rest_of_line cur ptr))
  /\ (back result <> Ok ";"%char ->
      fixup cur ptr result begin_offset
      = Ok (result ++ [";"%char] ++ rest_of_line cur ptr))
  /\ (rest_of_line cur ptr = [] ->
      exists r, fixup cur ptr result begin_offset = Ok r
                /\ back r = Ok ";"%char
                /\ fixup cur ptr r begin_offset = Ok r).
Proof.
  intros cur ptr result b Hclass Hfun Hne Hz.
  destruct (back_nonempty result Hne) as [c Hback].
  pose proof (class_fixup cur ptr result b c Hclass Hfun Hback Hz) as Hfix.
  pose proof (fun r => class_fixup cur ptr r b ";" Hclass Hfun) as Hagain.
  split; [|split].
  - intros H. rewrite Hback in H. injection H as ->. exact Hfix.
  - intros H. rewrite Hfix.
    destruct (Ascii.eqb_spec c ";") as [->|Hc]; [contradiction|].
    now rewrite <- app_assoc.
  - intros Hline. rewrite Hline, app_nil_r in Hfix.
    assert (Hidem : forall r, back r = Ok ";"%char ->
                              fixup cur ptr r b = Ok r).
    { intros r Hr. rewrite (Hagain r Hr Hz), Hline, app_nil_r.
      reflexivity. }
    destruct (Ascii.eqb_spec c ";") as [->|Hc].
    + exists result. auto.
    + exists (result ++ [";"%char]). split; [exact Hfix|].
      split; [apply back_last | apply Hidem, back_last].
Qed.

(** ** The two dispatches at a line end *)

(** Where the rest of the source begins with a newline or with the
    terminating NUL, the last branch has nothing to copy: outside the
    template-parameter and macro rules the two statements of [fixup] then give
    the text of the single dispatch, also after rule (a) or rule (b). *)
Lemma fixup_single_dispatch_at_line_end : forall cur c rest result begin_offset,
  is_templ_param cur = false ->
  kind_eqb (clang_getCursorKind cur) CXCursor_MacroDefinition = false ->
  c = newline \/ c = zero ->
  fixup cur (c :: rest) result begin_offset
  = spec_fixup cur (c :: rest) result begin_offset.
Proof.
  intros cur c rest result b Hparam Hmacro Hc.
  assert (Hstop : forall r : text, copy_until_newline (c :: rest) r = Ok r).
  { intros r. destruct Hc as [-> | ->]; reflexivity. }
  assert (Hsecond : forall r : text,
    (r2 <- select [Rule_c; Rule_d; Rule_e; Rule_f; Rule_g] cur
             (r ++ [";"%char]) ;;
     apply_selected r2 cur (c :: rest) (r ++ [";"%char]) b)
    = Ok (r ++ [";"%char])).
  { intros r. unfold select, guard. rewrite Hparam, Hmacro.
    rewrite back_is_not_last. cbn [bind].
    destruct (is_function cur); cbn [and_then bind];
      destruct (kind_eqb (clang_getCursorKind cur) CXCursor_TypeAliasDecl);
      cbn [and_then bind];
      destruct (is_other_declaration cur);
      cbn [bind apply_selected apply_rule];
      rewrite ?Hstop; reflexivity. }
  rewrite fixup_staged. unfold staged_fixup, spec_fixup.
  change [Rule_a; Rule_b; Rule_c; Rule_d; Rule_e; Rule_f; Rule_g]
    with ([Rule_a; Rule_b] ++ [Rule_c; Rule_d; Rule_e; Rule_f; Rule_g]).
  destruct (select [Rule_a; Rule_b] cur result) as [[r|]| | |] eqn:Hfirst.
  - assert (Hall : select ([Rule_a; Rule_b]
                           ++ [Rule_c; Rule_d; Rule_e; Rule_f; Rule_g])
                          cur result = Ok (Some r)).
    { cbn [app select] in *.
      destruct (guard Rule_a cur result) as [[|]| | |]; cbn [bind] in *;
        try discriminate; [exact Hfirst|].
      destruct (guard Rule_b cur result) as [[|]| | |]; cbn [bind] in *;
        try discriminate; exact Hfirst. }
    rewrite Hall. cbn [bind].
    assert (Hr : r = Rule_a \/ r = Rule_b).
    { cbn [select] in Hfirst.
      destruct (guard Rule_a cur result) as [[|]| | |]; cbn [bind] in *;
        try discriminate; [left; congruence|].
      destruct (guard Rule_b cur result) as [[|]| | |]; cbn [bind] in *;
        try discriminate; right; congruence. }
    destruct Hr as [-> | ->]; cbn [apply_selected apply_rule].
    + destruct (assert _); cbn [bind]; try reflexivity.
      destruct (erase_from _ _) as [r1| | |]; cbn [bind]; try reflexivity.
      apply Hsecond.
    + cbn [bind]. apply Hsecond.
  - rewrite (select_first_stage_none _ _ _ _ Hfirst). reflexivity.
  - assert (Hall : select ([Rule_a; Rule_b]
                           ++ [Rule_c; Rule_d; Rule_e; Rule_f; Rule_g])
                          cur result = Throw e).
    { cbn [app select] in *.
      destruct (guard Rule_a cur result) as [[|]| | |]; cbn [bind] in *;
        try discriminate; try exact Hfirst.
      destruct (guard Rule_b cur result) as [[|]| | |]; cbn [bind] in *;
        try discriminate; exact Hfirst. }
    rewrite Hall. reflexivity.
  - assert (Hall : select ([Rule_a; Rule_b]
                           ++ [Rule_c; Rule_d; Rule_e; Rule_f; Rule_g])
                          cur result = Abort).
    { cbn [app select] in *.
      destruct (guard Rule_a cur result) as [[|]| | |]; cbn [bind] in *;
        try discriminate; try exact Hfirst.
      destruct (guard Rule_b cur result) as [[|]| | |]; cbn [bind] in *;
        try discriminate; exact Hfirst. }
    rewrite Hall. reflexivity.
  - assert (Hall : select ([Rule_a; Rule_b]
                           ++ [Rule_c; Rule_d; Rule_e; Rule_f; Rule_g])
                          cur result = Undefined).
    { cbn [app select] in *.
      destruct (guard Rule_a cur result) as [[|]| | |]; cbn [bind] in *;
        try discriminate; try exact Hfirst.
      destruct (guard Rule_b cur result) as [[|]| | |]; cbn [bind] in *;
        try discriminate; exact Hfirst. }
    rewrite Hall. reflexivity.
Qed.

(** Once the first stage has left the text [r1]: the scan of the last branch
    always ends inside a NUL-terminated tail, at its first newline or NUL,
    after fewer steps than the tail has characters; the scans of the function
    and type-alias branches end, at the tail's first terminator and within
    the tail's length, exactly when the tail contains a terminator, and
    otherwise run past the end of the buffer. *)
Lemma forward_scans_within_tail :
  forall cur ptr result begin_offset first r1,
  select [Rule_a; Rule_b] cur result = Ok first ->
  apply_selected first cur ptr result begin_offset = Ok r1 ->
  (select [Rule_c; Rule_d; Rule_e; Rule_f; Rule_g] cur r1 = Ok (Some Rule_g) ->
   In zero ptr ->
   fixup cur ptr result begin_offset = Ok (r1 ++ until_newline ptr)
   /\ length (until_newline ptr) < length ptr)
  /\ (forall r, r = Rule_e \/ r = Rule_f ->
      select [Rule_c; Rule_d; Rule_e; Rule_f; Rule_g] cur r1 = Ok (Some r) ->
      (In ";"%char ptr ->
       fixup cur ptr result begin_offset
       = Ok (r1 ++ until_semicolon ptr ++ [";"%char])
       /\ length (until_semicolon ptr) < length ptr)
      /\ (~ In ";"%char ptr ->
          fixup cur ptr result begin_offset = Undefined)).
Proof.
  intros cur ptr result b first r1 Hfirst Hr1.
  assert (Hfix : forall r,
    select [Rule_c; Rule_d; Rule_e; Rule_f; Rule_g] cur r1 = Ok (Some r) ->
    fixup cur ptr result b = apply_rule r cur ptr r1 b).
  { intros r Hr. rewrite fixup_staged. unfold staged_fixup.
    rewrite Hfirst. cbn [bind]. rewrite Hr1. cbn [bind]. rewrite Hr.
    reflexivity. }
  split.
  - intros Hg Hz. rewrite (Hfix _ Hg). cbn [apply_rule]. split.
    + now apply copy_until_newline_spec.
    + now apply until_newline_length.
  - intros r Hr Hsel. rewrite (Hfix _ Hsel).
    assert (Happly : apply_rule r cur ptr r1 b = copy_until_semicolon ptr r1)
      by (destruct Hr as [-> | ->]; reflexivity).
    rewrite Happly. split.
    + intros Hs. split.
      * now apply copy_until_semicolon_spec.
      * now apply until_semicolon_length.
    + intros Hs. now apply copy_until_semicolon_leaves_buffer.
Qed.

(** ** The macro rule *)

Lemma macro_scan_skip : forall s t,
  Forall no_paren s -> macro_scan (s ++ t) = macro_scan t.
Proof.
  induction s as [|c s IH]; intros t Hs; [reflexivity|].
  inversion Hs as [|? ? [Ho Hc] Hs']; subst. simpl.
  destruct (Ascii.eqb_spec c ")") as [->|_]; [contradiction|].
  destruct (Ascii.eqb_spec c "(") as [->|_]; [contradiction|].
  now apply IH.
Qed.

Lemma macro_scan_suffix : forall pre c suf,
  Forall no_paren suf ->
  macro_scan (rev (pre ++ c :: suf)) = macro_scan (c :: rev pre).
Proof.
  intros pre c suf Hsuf.
  rewrite rev_app_distr. simpl rev. rewrite <- app_assoc.
  apply macro_scan_skip. apply Forall_rev. exact Hsuf.
Qed.

Lemma macro_kind_tests : forall cur,
  clang_getCursorKind cur = CXCursor_MacroDefinition ->
  clang_getTemplateCursorKind cur <> CXCursor_FunctionDecl ->
  is_function cur = false /\ is_class cur = false /\ is_templ_param cur = false.
Proof.
  intros cur Hk Ht. unfold is_function, is_class, is_templ_param.
  rewrite Hk, (kind_eqb_neq _ _ Ht). auto.
Qed.

Lemma macro_fixup : forall cur ptr result begin_offset,
  clang_getCursorKind cur = CXCursor_MacroDefinition ->
  clang_getTemplateCursorKind cur <> CXCursor_FunctionDecl ->
  fixup cur ptr result begin_offset
  = Ok (if macro_scan (rev result) then result ++ [")"%char] else result).
Proof.
  intros cur ptr result b Hk Ht.
  destruct (macro_kind_tests cur Hk Ht) as [Hfun [Hclass Htp]].
  unfold fixup. rewrite Hfun, Hclass, Htp, Hk. cbn.
  destruct (macro_scan (rev result)); reflexivity.
Qed.

(** C5.  For a macro definition the slice is scanned backward from its end:
    when a closing parenthesis comes before any opening one, or the slice
    has no parenthesis, the slice is returned unchanged; when an opening
    parenthesis comes first, exactly one closing parenthesis is appended,
    whatever precedes it. *)
Theorem macro_appends_one_closing_parenthesis :
  forall cur ptr result begin_offset,
  clang_getCursorKind cur = CXCursor_MacroDefinition ->
  clang_getTemplateCursorKind cur <> CXCursor_FunctionDecl ->
  (forall pre suf,
     result = pre ++ ")"%char :: suf -> Forall no_paren suf ->
     fixup cur ptr result begin_offset = Ok result)
  /\ (forall pre suf,
        result = pre ++ "("%char :: suf -> Forall no_paren suf ->
        fixup cur ptr result begin_offset = Ok (result ++ [")"%char]))
  /\ (Forall no_paren result ->
      fixup cur ptr result begin_offset = Ok result).
Proof.
  intros cur ptr result b Hk Ht.
  rewrite (macro_fixup cur ptr result b Hk Ht).
  split; [|split].
  - intros pre suf -> Hsuf. now rewrite macro_scan_suffix.
  - intros pre suf -> Hsuf. now rewrite macro_scan_suffix.
  - intros Hres. rewrite <- (app_nil_r (rev result)).
    rewrite macro_scan_skip by (now apply Forall_rev). reflexivity.
Qed.

(** ** The template-parameter rule *)

Lemma skip_spaces_spec : forall spaces c rest,
  Forall (fun x => isspace x = true) spaces ->
  isspace c = false ->
  skip_spaces (spaces ++ c :: rest) = Ok (c :: rest).
Proof.
  induction spaces as [|x spaces IH]; intros c rest Hsp Hc; simpl.
  - now rewrite Hc.
  - inversion Hsp as [|? ? Hx Hsp']; subst. rewrite Hx. now apply IH.
Qed.



Lemma templ_param_kind_tests : forall cur,
  is_templ_param cur = true ->
  clang_getTemplateCursorKind cur <> CXCursor_FunctionDecl ->
  is_function cur = false /\ is_class cur = false.
Proof.
  intros cur Hk Ht. unfold is_function, is_class, is_templ_param in *.
  rewrite (kind_eqb_neq _ _ Ht).
  destruct (clang_getCursorKind cur); try discriminate; auto.
Qed.


(** ** Reading the source of a cursor *)

(** C7.  For a node the range resolver cannot associate with a file,
    [read_source] returns the empty text as an ordinary result, whatever the
    kind of the node and the content of the translation unit: no correction
    rule runs. *)
Theorem read_source_without_file : forall tu cur,
  extent_file cur = None -> read_source tu cur = Ok [].
Proof.
  intros tu cur Hfile. unfold read_source, get_range. now rewrite Hfile.
Qed.

Lemma slice_length : forall source begin_offset end_offset s,
  (0 <= begin_offset < end_offset)%Z ->
  slice source begin_offset end_offset = Ok s ->
  Z.of_nat (length s) = (end_offset - begin_offset)%Z
  /\ length s + length (skipn (Z.to_nat end_offset) source) + Z.to_nat begin_offset
     = length source.
Proof.
  intros source b e s Hbe H. unfold slice in H.
  destruct (Z.leb_spec e (Z.of_nat (length source))) as [Hle|]; [|discriminate].
  injection H as <-. rewrite length_firstn, !length_skipn. lia.
Qed.

(** C9.  When the resolver returns a file, [read_source] asserts that the end
    offset is greater than the begin offset, and the function-body rule
    asserts that the body begins after the declaration does.  A violated
    assertion aborts: the outcome is neither a result nor a thrown error.
    Whenever a call returns, the range the slice was taken from is neither
    inverted nor empty, and the same holds for the cut of the body rule. *)
Theorem range_assertions : forall tu cur ptr result begin_offset file r,
  (extent_file cur = Some file ->
   (extent_end cur <= extent_begin cur)%Z ->
   read_source tu cur = Abort)
  /\ (is_function cur = true ->
      back result = Ok "}"%char ->
      (visit_children cur body_visitor 0 <= begin_offset)%Z ->
      fixup cur ptr result begin_offset = Abort)
  /\ (extent_file cur = Some file ->
      (0 <= extent_begin cur)%Z ->
      read_source tu cur = Ok r ->
      exists s,
        slice (c_str (get_source tu)) (extent_begin cur) (extent_end cur) = Ok s
        /\ (0 < extent_end cur - extent_begin cur)%Z
        /\ Z.of_nat (length s) = (extent_end cur - extent_begin cur)%Z)
  /\ (is_function cur = true ->
      back result = Ok "}"%char ->
      fixup cur ptr result begin_offset = Ok r ->
      (begin_offset < visit_children cur body_visitor 0)%Z).
Proof.
  intros tu cur ptr result b file r.
  assert (Hbody : is_function cur = true -> back result = Ok "}"%char ->
    fixup cur ptr result b
    = (assert (visit_children cur body_visitor 0 >? b)%Z ;;
       fixup cur ptr result b)).
  { intros Hfun Hback. unfold fixup at 1 2. rewrite Hfun.
    unfold back_is. rewrite Hback. cbn [and_then bind].
    change (Ascii.eqb "}" "}") with true. cbn iota.
    destruct (assert _); reflexivity. }
  split; [|split; [|split]].
  - intros Hfile Hle. unfold read_source, get_range. rewrite Hfile.
    destruct (clang_File_isEqual file (get_cxfile tu));
      cbn [assert bind]; [|reflexivity].
    replace (extent_end cur >? extent_begin cur)%Z with false
      by (symmetry; lia).
    reflexivity.
  - intros Hfun Hback Hle. rewrite (Hbody Hfun Hback).
    replace (visit_children cur body_visitor 0 >? b)%Z with false
      by (symmetry; lia).
    reflexivity.
  - intros Hfile Hpos Hr. unfold read_source, get_range in Hr.
    rewrite Hfile in Hr.
    destruct (clang_File_isEqual file (get_cxfile tu)); [|discriminate].
    cbn [assert bind] in Hr.
    destruct (Z.gtb_spec (extent_end cur) (extent_begin cur)) as [Hgt|];
      [|discriminate].
    cbn [assert bind] in Hr.
    destruct (slice _ _ _) as [s| | |] eqn:Hs; try discriminate.
    exists s. split; [reflexivity|]. split; [lia|].
    exact (proj1 (slice_length _ _ _ _ (conj Hpos Hgt) Hs)).
  - intros Hfun Hback Hr. rewrite (Hbody Hfun Hback) in Hr.
    destruct (Z.gtb_spec (visit_children cur body_visitor 0%Z) b) as [Hgt|];
      [lia | discriminate].
Qed.

(** ** The length of the reconstructed text *)

Lemma skip_spaces_length : forall ptr p,
  skip_spaces ptr = Ok p -> length p <= length ptr.
Proof.
  induction ptr as [|c ptr IH]; intros p H; simpl in H; [discriminate|].
  destruct (isspace c).
  - apply IH in H. simpl. lia.
  - injection H as <-. reflexivity.
Qed.

Lemma copy_parenthesized_length : forall ptr depth result r p,
  copy_parenthesized ptr depth result = Ok (r, p) ->
  length r + length p = length result + length ptr.
Proof.
  induction ptr as [|c ptr IH]; intros depth result r p H; simpl in H.
  - destruct (depth =? 0)%Z; [|discriminate]. now injection H as <- <-.
  - destruct (depth =? 0)%Z.
    + now injection H as <- <-.
    + apply IH in H. rewrite length_app in H. simpl in *. lia.
Qed.

Lemma copy_until_semicolon_length : forall ptr result r,
  copy_until_semicolon ptr result = Ok r ->
  length r <= length result + length ptr.
Proof.
  induction ptr as [|c ptr IH]; intros result r H; simpl in H; [discriminate|].
  destruct (negb (Ascii.eqb c ";")).
  - apply IH in H. rewrite length_app in H. simpl in *. lia.
  - injection H as <-. rewrite length_app. simpl. lia.
Qed.

Lemma copy_until_newline_length : forall ptr result r,
  copy_until_newline ptr result = Ok r ->
  length r <= length result + length ptr.
Proof.
  induction ptr as [|c ptr IH]; intros result r H; simpl in H; [discriminate|].
  destruct (negb (Ascii.eqb c newline) && negb (Ascii.eqb c zero)).
  - apply IH in H. rewrite length_app in H. simpl in *. lia.
  - injection H as <-. lia.
Qed.

Lemma pop_back_length : forall s : text, length (pop_back s) <= length s.
Proof.
  intros s. unfold pop_back. destruct s as [|c s]; [reflexivity|].
  rewrite (removelast_firstn_len (c :: s)), length_firstn. lia.
Qed.

Lemma apply_rule_length : forall r cur ptr result begin_offset r',
  apply_rule r cur ptr result begin_offset = Ok r' ->
  length r' <= length result + 1 + length ptr.
Proof.
  intros r cur ptr result b r' H. destruct r; cbn [apply_rule] in H.
  - apply bind_Ok_inv in H. destruct H as [_ [_ H]].
    apply bind_Ok_inv in H. destruct H as [s [Hs H]].
    injection H as <-. unfold erase_from in Hs.
    destruct (_ <=? _)%Z; [|discriminate]. injection Hs as <-.
    rewrite length_app, length_firstn. simpl. lia.
  - injection H as <-. rewrite length_app. simpl. lia.
  - apply bind_Ok_inv in H. destruct H as [p [Hp H]].
    apply skip_spaces_length in Hp.
    apply bind_Ok_inv in H. destruct H as [[r2 p2] [Hgroup H]].
    assert (Hr2 : length r2 <= length result + length ptr).
    { destruct p as [|c p]; [discriminate|].
      destruct (Ascii.eqb c "(").
      - apply copy_parenthesized_length in Hgroup.
        rewrite length_app in Hgroup. simpl in *. lia.
      - injection Hgroup as <- <-. lia. }
    apply bind_Ok_inv in H. destruct H as [c [_ H]].
    destruct (negb (Ascii.eqb c ">") && negb (Ascii.eqb c ",")).
    + apply bind_Ok_inv in H. destruct H as [l [_ H]].
      destruct (Ascii.eqb l ">"); injection H as <-;
        [pose proof (pop_back_length r2)|]; lia.
    + injection H as <-. lia.
  - destruct (macro_scan (rev result)); injection H as <-;
      [rewrite length_app; simpl|]; lia.
  - apply copy_until_semicolon_length in H. lia.
  - apply copy_until_semicolon_length in H. lia.
  - apply copy_until_newline_length in H. lia.
Qed.

Lemma first_stage_length : forall cur ptr result begin_offset first r1,
  select [Rule_a; Rule_b] cur result = Ok first ->
  apply_selected first cur ptr result begin_offset = Ok r1 ->
  length r1 <= length result + 1.
Proof.
  intros cur ptr result b first r1 Hsel H. cbn [select] in Hsel.
  destruct (guard Rule_a cur result) as [[|]| | |]; cbn [bind] in Hsel;
    try discriminate.
  - injection Hsel as <-. cbn [apply_selected apply_rule] in H.
    apply bind_Ok_inv in H. destruct H as [_ [_ H]].
    apply bind_Ok_inv in H. destruct H as [s [Hs H]].
    injection H as <-. unfold erase_from in Hs.
    destruct (_ <=? _)%Z; [|discriminate]. injection Hs as <-.
    rewrite length_app, length_firstn. simpl. lia.
  - destruct (guard Rule_b cur result) as [[|]| | |]; cbn [bind] in Hsel;
      try discriminate; injection Hsel as <-; cbn in H; injection H as <-;
      [rewrite length_app; simpl|]; lia.
Qed.

Lemma fixup_length : forall cur ptr result begin_offset r,
  fixup cur ptr result begin_offset = Ok r ->
  length r <= length result + length ptr + 2.
Proof.
  intros cur ptr result b r H. rewrite fixup_staged in H.
  unfold staged_fixup in H.
  apply bind_Ok_inv in H. destruct H as [first [Hfirst H]].
  apply bind_Ok_inv in H. destruct H as [r1 [Hr1 H]].
  apply bind_Ok_inv in H. destruct H as [second [_ H]].
  pose proof (first_stage_length _ _ _ _ _ _ Hfirst Hr1) as Hlen1.
  destruct second as [r2|]; cbn [apply_selected] in H.
  - apply apply_rule_length in H. lia.
  - injection H as <-. lia.
Qed.

(** C10.  [read_range] returns the provider's begin offset unchanged and, as
    end offset, the begin offset plus the length of the reconstructed text:
    the corrected range is as long as the reconstructed text, and empty when
    no file is resolved.  (Offsets are unsigned; the source is smaller than
    2 GiB, the provider's own limit.) *)
Theorem read_range_covers_reconstructed_text :
  forall tu cur file begin_offset end_offset,
  unsigned_range (extent_begin cur) ->
  (Z.of_nat (length (get_source tu)) < 2 ^ 31)%Z ->
  read_range tu cur = Ok (file, begin_offset, end_offset) ->
  exists source,
    read_source tu cur = Ok source
    /\ file = extent_file cur
    /\ begin_offset = extent_begin cur
    /\ end_offset = (begin_offset + Z.of_nat (length source))%Z
    /\ (file = None -> end_offset = begin_offset).
Proof.
  intros tu cur file b e Hb Hsize H.
  unfold read_range, get_range in H.
  apply bind_Ok_inv in H. destruct H as [source [Hsrc H]].
  injection H as <- <- <-.
  exists source. split; [exact Hsrc|]. split; [reflexivity|].
  split; [reflexivity|].
  assert (Hlen : (extent_begin cur + Z.of_nat (length source) < UINT_MODULUS)%Z).
  { unfold read_source, get_range in Hsrc.
    destruct (extent_file cur) as [f|].
    - apply bind_Ok_inv in Hsrc. destruct Hsrc as [_ [_ Hsrc]].
      apply bind_Ok_inv in Hsrc. destruct Hsrc as [u [Hgt Hsrc]].
      unfold assert in Hgt.
      destruct (Z.gtb_spec (extent_end cur) (extent_begin cur)) as [Hlt|];
        [|discriminate].
      apply bind_Ok_inv in Hsrc. destruct Hsrc as [s [Hs Hsrc]].
      apply fixup_length in Hsrc.
      destruct (slice_length _ _ _ _ (conj (proj1 Hb) Hlt) Hs) as [_ Hsum].
      unfold c_str in Hsum. rewrite length_app in Hsum. simpl in Hsum.
      unfold c_str in Hsrc.
      unfold UINT_MODULUS. change (2 ^ 32)%Z with (2 * 2 ^ 31)%Z. lia.
    - injection Hsrc as <-. simpl. unfold unsigned_range in Hb. lia. }
  split.
  - apply to_unsigned_small. unfold unsigned_range in *. lia.
  - intros Hnone. unfold read_source, get_range in Hsrc.
    rewrite Hnone in Hsrc. injection Hsrc as <-. simpl. rewrite Z.add_0_r.
    now apply to_unsigned_small.
Qed.

(** * Further properties of the reconstruction *)

(** ** Outcomes of the parts of [fixup] *)

Lemma quiet_no_throw : forall (A : Type) (o : outcome A), quiet o -> no_throw o.
Proof. intros A [a|e| |]; simpl; auto. Qed.

Lemma quiet_bind : forall (A B : Type) (m : outcome A) (k : A -> outcome B),
  quiet m -> (forall a, quiet (k a)) -> quiet (bind m k).
Proof. intros A B [a|e| |] k Hm Hk; simpl in *; auto. Qed.

Lemma no_throw_bind : forall (A B : Type) (m : outcome A) (k : A -> outcome B),
  no_throw m -> (forall a, no_throw (k a)) -> no_throw (bind m k).
Proof. intros A B [a|e| |] k Hm Hk; simpl in *; auto. Qed.

Lemma quiet_back : forall s, quiet (back s).
Proof. intros s. unfold back. destruct (rev s); exact I. Qed.

Lemma quiet_and_then : forall a m, quiet m -> quiet (and_then a m).
Proof. intros [|] m H; simpl; auto. Qed.

Lemma quiet_back_is : forall s c, quiet (back_is s c).
Proof. intros s c. apply quiet_bind; [apply quiet_back | intros; exact I]. Qed.

Lemma quiet_back_is_not : forall s c, quiet (back_is_not s c).
Proof. intros s c. apply quiet_bind; [apply quiet_back | intros; exact I]. Qed.

Lemma quiet_skip_spaces : forall ptr, quiet (skip_spaces ptr).
Proof.
  induction ptr as [|c ptr IH]; simpl; [exact I|].
  destruct (isspace c); [exact IH | exact I].
Qed.

Lemma quiet_copy_parenthesized : forall ptr depth result,
  quiet (copy_parenthesized ptr depth result).
Proof.
  induction ptr as [|c ptr IH]; intros depth result; simpl;
    destruct (depth =? 0)%Z; try exact I. apply IH.
Qed.

Lemma quiet_copy_until_semicolon : forall ptr result,
  quiet (copy_until_semicolon ptr result).
Proof.
  induction ptr as [|c ptr IH]; intros result; simpl; [exact I|].
  destruct (negb (Ascii.eqb c ";")); [apply IH | exact I].
Qed.

Lemma quiet_copy_until_newline : forall ptr result,
  quiet (copy_until_newline ptr result).
Proof.
  induction ptr as [|c ptr IH]; intros result; simpl; [exact I|].
  destruct (negb (Ascii.eqb c newline) && negb (Ascii.eqb c zero));
    [apply IH | exact I].
Qed.

Lemma quiet_guard : forall r cur result, quiet (guard r cur result).
Proof.
  intros [] cur result; simpl; try exact I;
    apply quiet_and_then; (apply quiet_back_is || apply quiet_back_is_not).
Qed.

Lemma quiet_select : forall rules cur result, quiet (select rules cur result).
Proof.
  induction rules as [|r rules IH]; intros cur result; simpl; [exact I|].
  apply quiet_bind; [apply quiet_guard|]. intros [|]; [exact I | apply IH].
Qed.

Lemma select_In : forall rules cur result r,
  select rules cur result = Ok (Some r) ->
  In r rules /\ guard r cur result = Ok true.
Proof.
  induction rules as [|r0 rules IH]; intros cur result r H; simpl in H;
    [discriminate|].
  destruct (guard r0 cur result) as [[|]| | |] eqn:E; simpl in H;
    try discriminate.
  - injection H as <-. split; [now left | exact E].
  - destruct (IH _ _ _ H) as [Hin Hg]. split; [now right | exact Hg].
Qed.

Lemma quiet_erase_from : forall s n, quiet (erase_from s n).
Proof. intros s n. unfold erase_from. destruct (_ <=? _)%Z; exact I. Qed.

Lemma quiet_apply_rule : forall r cur ptr result begin_offset,
  r <> Rule_a -> quiet (apply_rule r cur ptr result begin_offset).
Proof.
  intros r cur ptr result b Hr. destruct r; cbn [apply_rule];
    try contradiction.
  - exact I.
  - apply quiet_bind; [apply quiet_skip_spaces|]. intros p.
    apply quiet_bind.
    + destruct p as [|c p]; [exact I|].
      destruct (Ascii.eqb c "("); [apply quiet_copy_parenthesized | exact I].
    + intros [r2 p2]. apply quiet_bind; [destruct p2; exact I|]. intros c.
      destruct (negb (Ascii.eqb c ">") && negb (Ascii.eqb c ","));
        [|exact I].
      apply quiet_bind; [apply quiet_back|]. intros l.
      destruct (Ascii.eqb l ">"); exact I.
  - destruct (macro_scan (rev result)); exact I.
  - apply quiet_copy_until_semicolon.
  - apply quiet_copy_until_semicolon.
  - apply quiet_copy_until_newline.
Qed.

Lemma second_stage_quiet : forall cur ptr result begin_offset,
  quiet (r2 <- select [Rule_c; Rule_d; Rule_e; Rule_f; Rule_g] cur result ;;
         apply_selected r2 cur ptr result begin_offset).
Proof.
  intros cur ptr result b.
  destruct (select _ cur result) as [[r|]| | |] eqn:E; simpl; try exact I.
  - apply quiet_apply_rule. intros ->.
    destruct (select_In _ _ _ _ E) as [Hin _].
    repeat (destruct Hin as [Hin|Hin]; [discriminate Hin|]). exact Hin.
  - pose proof (quiet_select [Rule_c; Rule_d; Rule_e; Rule_f; Rule_g] cur result)
      as Hq.
    rewrite E in Hq. exact Hq.
  - pose proof (quiet_select [Rule_c; Rule_d; Rule_e; Rule_f; Rule_g] cur result)
      as Hq.
    rewrite E in Hq. exact Hq.
Qed.

Lemma first_body_none : forall children,
  Forall (fun c => is_body c = false) children -> first_body children = None.
Proof.
  induction children as [|c children IH]; intros H; simpl; [reflexivity|].
  inversion H as [|? ? Hc H']; subst. unfold is_body in Hc.
  destruct (clang_getCursorKind c); try discriminate; auto.
Qed.

(** ** When [fixup] aborts *)

(** [fixup] aborts exactly when the node is a function whose slice ends with
    a closing brace and the begin offset found among its children is not
    greater than the begin offset of the declaration; that is always so when
    no child is a compound statement or a try block, the offset then being
    the initial 0. *)
Theorem fixup_aborts_exactly_when : forall cur ptr result begin_offset,
  (fixup cur ptr result begin_offset = Abort <->
   is_function cur = true
   /\ back result = Ok "}"%char
   /\ (visit_children cur body_visitor 0 <= begin_offset)%Z)
  /\ (Forall (fun c => is_body c = false) (cursor_children cur) ->
      visit_children cur body_visitor 0%Z = 0%Z).
Proof.
  intros cur ptr result b. split.
  - unfold visit_children. rewrite first_body_visit.
    rewrite fixup_staged.
    set (second := fun r1 : text =>
           r2 <- select [Rule_c; Rule_d; Rule_e; Rule_f; Rule_g] cur r1 ;;
           apply_selected r2 cur ptr r1 b).
    assert (Hq : forall r1, second r1 <> Abort).
    { intros r1 H. pose proof (second_stage_quiet cur ptr r1 b) as Hq.
      fold (second r1) in Hq. rewrite H in Hq. exact Hq. }
    change (staged_fixup cur ptr result b)
      with (r1 <- select [Rule_a; Rule_b] cur result ;;
            res <- apply_selected r1 cur ptr result b ;;
            second res).
    clearbody second. cbn [select guard].
    split.
    + intros H.
      destruct (is_function cur) eqn:Hfun; cbn [and_then] in H.
      * unfold back_is at 1 in H.
        pose proof (quiet_back result) as Hqb.
        destruct (back result) as [l| | |] eqn:Hback; cbn [bind] in H;
          try discriminate; try contradiction.
        destruct (Ascii.eqb_spec l "}") as [->|Hl]; cbn [bind] in H.
        -- split; [reflexivity|]. split; [reflexivity|].
           cbn [apply_selected apply_rule] in H.
           destruct (Z.gtb_spec
                       match first_body (cursor_children cur) with
                       | Some b0 => b0
                       | None => 0%Z
                       end b) as [Hgt|Hle]; [|exact Hle].
           exfalso. cbn [assert bind] in H.
           unfold erase_from in H.
           destruct (_ <=? _)%Z; cbn [bind] in H; [|discriminate].
           exact (Hq _ H).
        -- exfalso.
           pose proof (quiet_and_then (is_class cur) _
                         (quiet_back_is_not result ";")) as Hqa.
           destruct (and_then (is_class cur) (back_is_not result ";"))
             as [[|]| | |]; cbn [bind apply_selected apply_rule] in H;
             try discriminate; try exact Hqa; exact (Hq _ H).
      * exfalso. cbn [bind] in H.
        pose proof (quiet_and_then (is_class cur) _
                      (quiet_back_is_not result ";")) as Hqa.
        destruct (and_then (is_class cur) (back_is_not result ";"))
          as [[|]| | |]; cbn [bind apply_selected apply_rule] in H;
          try discriminate; try exact Hqa; exact (Hq _ H).
    + intros [Hfun [Hback Hle]]. rewrite Hfun. unfold back_is at 1.
      rewrite Hback. cbn [and_then bind].
      change (Ascii.eqb "}" "}") with true.
      cbn [bind apply_selected apply_rule].
      replace (_ >? b)%Z with false by (symmetry; lia). reflexivity.
  - intros H. unfold visit_children. rewrite first_body_visit.
    now rewrite (first_body_none _ H).
Qed.

(** ** No reported error *)

Lemma no_throw_fixup : forall cur ptr result begin_offset,
  no_throw (fixup cur ptr result begin_offset).
Proof.
  intros cur ptr result b. rewrite fixup_staged. unfold staged_fixup.
  apply no_throw_bind; [apply quiet_no_throw, quiet_select|]. intros first.
  apply no_throw_bind.
  - destruct first as [r|]; cbn [apply_selected]; [|exact I].
    destruct r; try (apply quiet_no_throw, quiet_apply_rule; discriminate).
    cbn [apply_rule]. apply no_throw_bind.
    + unfold assert. destruct (_ >? _)%Z; exact I.
    + intros _. apply quiet_no_throw.
      apply quiet_bind; [apply quiet_erase_from | intros; exact I].
  - intros r1. apply quiet_no_throw, second_stage_quiet.
Qed.

Lemma no_throw_read_source : forall tu cur, no_throw (read_source tu cur).
Proof.
  intros tu cur. unfold read_source, get_range.
  destruct (extent_file cur) as [f|]; [|exact I].
  apply no_throw_bind; [unfold assert; destruct (clang_File_isEqual _ _); exact I|].
  intros _.
  apply no_throw_bind; [unfold assert; destruct (_ >? _)%Z; exact I|].
  intros _.
  apply no_throw_bind.
  - unfold slice. destruct (_ <=? _)%Z; exact I.
  - intros s. apply no_throw_fixup.
Qed.

(** The reconstruction never reports a [parse_error]: [fixup],
    [read_source], [read_range] and the source of a tokenizer either return,
    abort on an assertion, or leave defined behaviour. *)
Theorem reconstruction_never_throws : forall tu cur ptr result begin_offset,
  no_throw (fixup cur ptr result begin_offset)
  /\ no_throw (read_source tu cur)
  /\ no_throw (read_range tu cur)
  /\ no_throw (tokenizer_source tu cur).
Proof.
  intros tu cur ptr result b.
  pose proof (no_throw_read_source tu cur) as Hr.
  split; [apply no_throw_fixup|]. split; [exact Hr|]. split.
  - unfold read_range, get_range.
    apply no_throw_bind; [exact Hr | intros; exact I].
  - unfold tokenizer_source.
    apply no_throw_bind; [exact Hr | intros; exact I].
Qed.

(** ** What the rules append *)

Lemma until_semicolon_split : forall ptr,
  In ";"%char ptr ->
  exists rest, ptr = until_semicolon ptr ++ ";"%char :: rest
               /\ ~ In ";"%char (until_semicolon ptr).
Proof.
  induction ptr as [|c ptr IH]; intros Hs; [contradiction|]. simpl.
  destruct (Ascii.eqb_spec c ";") as [->|Hn].
  - exists ptr. split; [reflexivity | intros []].
  - destruct Hs as [Hs|Hs]; [congruence|].
    destruct (IH Hs) as [rest [E Hnot]]. exists rest. split.
    + simpl. now rewrite <- E.
    + intros [H|H]; [congruence | contradiction].
Qed.

Lemma until_newline_clean : forall ptr,
  ~ In newline (until_newline ptr) /\ ~ In zero (until_newline ptr).
Proof.
  induction ptr as [|c ptr [IHn IHz]]; simpl; [split; intros []|].
  destruct (Ascii.eqb_spec c newline) as [->|Hn]; simpl; [split; intros []|].
  destruct (Ascii.eqb_spec c zero) as [->|Hz]; simpl; [split; intros []|].
  split; intros [H|H]; congruence || contradiction.
Qed.

Lemma copy_until_semicolon_prefix : forall ptr result r,
  copy_until_semicolon ptr result = Ok r ->
  exists pre post, ptr = pre ++ post /\ r = result ++ pre.
Proof.
  induction ptr as [|c ptr IH]; intros result r H; simpl in H; [discriminate|].
  destruct (Ascii.eqb_spec c ";") as [->|Hn]; simpl in H.
  - injection H as <-. now exists [";"%char], ptr.
  - destruct (IH _ _ H) as [pre [post [-> ->]]].
    exists (c :: pre), post. split; [reflexivity | now rewrite <- app_assoc].
Qed.

Lemma copy_until_newline_prefix : forall ptr result r,
  copy_until_newline ptr result = Ok r ->
  exists pre post, ptr = pre ++ post /\ r = result ++ pre.
Proof.
  induction ptr as [|c ptr IH]; intros result r H; simpl in H; [discriminate|].
  destruct (negb (Ascii.eqb c newline) && negb (Ascii.eqb c zero)).
  - destruct (IH _ _ H) as [pre [post [-> ->]]].
    exists (c :: pre), post. split; [reflexivity | now rewrite <- app_assoc].
  - injection H as <-. exists [], (c :: ptr). now rewrite app_nil_r.
Qed.

Lemma back_is_true : forall s c, back_is s c = Ok true -> back s = Ok c.
Proof.
  intros s c H. unfold back_is in H.
  destruct (back s) as [l| | |]; simpl in H; try discriminate.
  injection H as H. apply Ascii.eqb_eq in H. now subst.
Qed.

Lemma guard_a_true : forall cur result,
  guard Rule_a cur result = Ok true ->
  is_function cur = true /\ back result = Ok "}"%char.
Proof.
  intros cur result H. cbn [guard] in H.
  destruct (is_function cur); simpl in H; [|discriminate].
  split; [reflexivity | now apply back_is_true].
Qed.

(** The first statement of [fixup], when the body rule does not apply: the
    text grows by at most a terminator. *)
Lemma first_stage_appends : forall cur ptr result begin_offset first r1,
  (is_function cur = true -> back result <> Ok "}"%char) ->
  select [Rule_a; Rule_b] cur result = Ok first ->
  apply_selected first cur ptr result begin_offset = Ok r1 ->
  (r1 = result /\ (is_class cur = false \/ back result = Ok ";"%char))
  \/ (r1 = result ++ [";"%char] /\ is_class cur = true).
Proof.
  intros cur ptr result b first r1 Hbody Hsel Hr1.
  destruct first as [r|].
  - destruct (select_In _ _ _ _ Hsel) as [Hin Hg].
    destruct Hin as [<-|[<-|[]]].
    + destruct (guard_a_true _ _ Hg) as [Hfun Hback].
      now destruct (Hbody Hfun).
    + cbn in Hr1. injection Hr1 as <-. right. split; [reflexivity|].
      cbn [guard] in Hg. destruct (is_class cur); [reflexivity|discriminate].
  - cbn in Hr1. injection Hr1 as <-. left. split; [reflexivity|].
    cbn [select guard] in Hsel.
    destruct (and_then (is_function cur) _) as [[|]| | |]; cbn in Hsel;
      try discriminate.
    destruct (is_class cur); [right|now left]. cbn in Hsel.
    unfold back_is_not in Hsel.
    destruct (back result) as [l| | |]; cbn in Hsel; try discriminate.
    destruct (Ascii.eqb_spec l ";") as [->|]; [reflexivity|discriminate].
Qed.

(** The second statement of [fixup], outside the template-parameter rule:
    the text grows by a closing parenthesis or by a prefix of the tail. *)
Lemma second_stage_appends : forall cur ptr result begin_offset second r,
  is_templ_param cur = false ->
  select [Rule_c; Rule_d; Rule_e; Rule_f; Rule_g] cur result = Ok second ->
  apply_selected second cur ptr result begin_offset = Ok r ->
  (second = Some Rule_d /\ (r = result \/ r = result ++ [")"%char]))
  \/ (second <> Some Rule_d
      /\ exists pre post, ptr = pre ++ post /\ r = result ++ pre).
Proof.
  intros cur ptr result b second r Htp Hsel Hr.
  destruct second as [rule|].
  - destruct (select_In _ _ _ _ Hsel) as [Hin Hg].
    destruct rule; cbn [apply_selected apply_rule] in Hr.
    + repeat (destruct Hin as [Hin|Hin]; [discriminate Hin|]). contradiction.
    + repeat (destruct Hin as [Hin|Hin]; [discriminate Hin|]). contradiction.
    + cbn [guard] in Hg. congruence.
    + left. split; [reflexivity|].
      destruct (macro_scan (rev result)); injection Hr as <-; auto.
    + right. split; [discriminate|]. now apply copy_until_semicolon_prefix.
    + right. split; [discriminate|]. now apply copy_until_semicolon_prefix.
    + right. split; [discriminate|]. now apply copy_until_newline_prefix.
  - cbn in Hr. injection Hr as <-. right. split; [discriminate|].
    exists [], ptr. now rewrite app_nil_r.
Qed.

Lemma staged_inv : forall cur ptr result begin_offset r,
  fixup cur ptr result begin_offset = Ok r ->
  exists first r1 second,
    select [Rule_a; Rule_b] cur result = Ok first
    /\ apply_selected first cur ptr result begin_offset = Ok r1
    /\ select [Rule_c; Rule_d; Rule_e; Rule_f; Rule_g] cur r1 = Ok second
    /\ apply_selected second cur ptr r1 begin_offset = Ok r.
Proof.
  intros cur ptr result b r H. rewrite fixup_staged in H.
  unfold staged_fixup in H.
  apply bind_Ok_inv in H. destruct H as [first [Hfirst H]].
  apply bind_Ok_inv in H. destruct H as [r1 [Hr1 H]].
  apply bind_Ok_inv in H. destruct H as [second [Hsecond H]].
  now exists first, r1, second.
Qed.

(** Outside the function-body rule and the template-parameter rule, [fixup]
    only appends: the slice is a prefix of the reconstructed text. *)
Theorem fixup_only_appends : forall cur ptr result begin_offset r,
  is_templ_param cur = false ->
  (is_function cur = true -> back result <> Ok "}"%char) ->
  fixup cur ptr result begin_offset = Ok r ->
  exists suffix, r = result ++ suffix.
Proof.
  intros cur ptr result b r Htp Hbody H.
  destruct (staged_inv _ _ _ _ _ H) as [first [r1 [second [H1 [H2 [H3 H4]]]]]].
  destruct (first_stage_appends _ _ _ _ _ _ Hbody H1 H2) as [[-> _]|[-> _]];
    destruct (second_stage_appends _ _ _ _ _ _ Htp H3 H4)
      as [[_ [->| ->]]|[_ [pre [post [_ ->]]]]];
    rewrite <- ?app_assoc; eauto.
  exists []. now rewrite app_nil_r.
Qed.

(** ** Declarations without body *)

Lemma kind_eqb_same : forall k, kind_eqb k k = true.
Proof.
  intros k. unfold kind_eqb. destruct (CXCursorKind_eq_dec k k); congruence.
Qed.

(** For a function without body or a type alias whose non-empty slice does
    not end with a terminator, and a tail that contains a terminator, the
    reconstructed text is the slice followed by the tail up to and including
    its first terminator; nothing after that terminator is copied. *)
Theorem declaration_extended_to_terminator :
  forall cur ptr result begin_offset last,
  is_function cur = true \/ clang_getCursorKind cur = CXCursor_TypeAliasDecl ->
  is_class cur = false ->
  is_templ_param cur = false ->
  clang_getCursorKind cur <> CXCursor_MacroDefinition ->
  back result = Ok last ->
  last <> ";"%char ->
  (is_function cur = true -> last <> "}"%char) ->
  In ";"%char ptr ->
  exists copied rest,
    ptr = copied ++ ";"%char :: rest
    /\ ~ In ";"%char copied
    /\ fixup cur ptr result begin_offset = Ok (result ++ copied ++ [";"%char]).
Proof.
  intros cur ptr result b last Hkind Hclass Htp Hmacro Hback Hsemi Hbrace Hin.
  destruct (until_semicolon_split ptr Hin) as [rest [Hsplit Hnot]].
  exists (until_semicolon ptr), rest. split; [exact Hsplit|].
  split; [exact Hnot|].
  assert (Hnot_semi : back_is_not result ";" = Ok true).
  { unfold back_is_not. rewrite Hback. cbn [bind].
    now rewrite (proj2 (Ascii.eqb_neq last ";") Hsemi). }
  unfold fixup. rewrite Hclass, Htp, (kind_eqb_neq _ _ Hmacro).
  destruct (is_function cur) eqn:Hfun; cbn [and_then].
  - unfold back_is. rewrite Hback. cbn [bind].
    rewrite (proj2 (Ascii.eqb_neq last "}") (Hbrace eq_refl)).
    cbn [bind]. rewrite Hnot_semi. cbn [bind].
    now apply copy_until_semicolon_spec.
  - destruct Hkind as [Hkind|Hkind]; [discriminate|].
    rewrite Hkind, kind_eqb_same. cbn [bind and_then].
    rewrite Hnot_semi. cbn [bind].
    now apply copy_until_semicolon_spec.
Qed.

(** ** Kinds that are left alone and kinds that get the rest of the line *)

(** For a cursor that is no function, class, template parameter, macro
    definition or type alias and that the guard of the last branch rejects
    (a parameter, a base specifier, a kind that is no declaration), [fixup]
    returns the slice unchanged whatever the tail and the slice are: neither
    is read. *)
Theorem fixup_leaves_excluded_kinds : forall cur ptr result begin_offset,
  is_function cur = false ->
  is_class cur = false ->
  is_templ_param cur = false ->
  clang_getCursorKind cur <> CXCursor_MacroDefinition ->
  clang_getCursorKind cur <> CXCursor_TypeAliasDecl ->
  is_other_declaration cur = false ->
  fixup cur ptr result begin_offset = Ok result.
Proof.
  intros cur ptr result b Hfun Hclass Htp Hmacro Halias Hother.
  unfold fixup.
  rewrite Hfun, Hclass, Htp, (kind_eqb_neq _ _ Hmacro),
    (kind_eqb_neq _ _ Halias), Hother.
  reflexivity.
Qed.

(** For any other declaration (no function, class, template parameter, macro
    definition or type alias, and accepted by the guard of the last branch)
    and a NUL-terminated tail, the reconstructed text is the slice followed
    by the rest of the tail's line: the copied part ends before the first
    newline or NUL of the tail and contains neither. *)
Theorem other_declaration_gets_rest_of_line :
  forall cur ptr result begin_offset,
  is_function cur = false ->
  is_class cur = false ->
  is_templ_param cur = false ->
  clang_getCursorKind cur <> CXCursor_MacroDefinition ->
  clang_getCursorKind cur <> CXCursor_TypeAliasDecl ->
  is_other_declaration cur = true ->
  In zero ptr ->
  exists copied stop rest,
    ptr = copied ++ stop :: rest
    /\ (stop = newline \/ stop = zero)
    /\ ~ In newline copied /\ ~ In zero copied
    /\ fixup cur ptr result begin_offset = Ok (result ++ copied).
Proof.
  intros cur ptr result b Hfun Hclass Htp Hmacro Halias Hother Hz.
  destruct (until_newline_prefix ptr Hz) as [stop [rest [Hsplit Hstop]]].
  destruct (until_newline_clean ptr) as [Hn Hnz].
  exists (until_newline ptr), stop, rest.
  repeat (split; [assumption|]).
  unfold fixup.
  rewrite Hfun, Hclass, Htp, (kind_eqb_neq _ _ Hmacro),
    (kind_eqb_neq _ _ Halias), Hother.
  cbn [and_then bind]. now apply copy_until_newline_spec.
Qed.

(** ** The function-body rule outside the slice *)

(** When the first compound-statement or try-block child of a function
    begins, by its reported offset, after the end of the slice, the cut of
    the function-body rule lies outside the string: [erase] is called with
    an iterator past the end and the call has no defined result. *)
Theorem function_body_cut_outside_slice :
  forall cur ptr result begin_offset pre child post,
  is_function cur = true ->
  back result = Ok "}"%char ->
  cursor_children cur = pre ++ child :: post ->
  Forall (fun c => is_body c = false) pre ->
  is_body child = true ->
  unsigned_range begin_offset ->
  unsigned_range (extent_begin child) ->
  (begin_offset + Z.of_nat (length result) < extent_begin child)%Z ->
  fixup cur ptr result begin_offset = Undefined.
Proof.
  intros cur ptr result b pre child post Hfun Hback Hch Hpre Hbody Hb Hsplit Hlt.
  unfold fixup, visit_children.
  rewrite first_body_visit, Hch, (first_body_split pre child post Hpre Hbody).
  rewrite Hfun. unfold back_is at 1. rewrite Hback. cbn [and_then bind].
  change (Ascii.eqb "}" "}") with true. cbn iota.
  replace (extent_begin child >? b)%Z with true by (symmetry; lia).
  cbn [assert bind].
  rewrite to_unsigned_small by (unfold unsigned_range in *; lia).
  unfold erase_from.
  replace (extent_begin child - b <=? Z.of_nat (length result))%Z with false
    by (symmetry; apply Z.leb_gt; lia).
  reflexivity.
Qed.

(** ** A group that does not close *)

Lemma copy_parenthesized_never_closes : forall ptr depth result,
  (forall k, k <= length ptr -> (0 < depth + paren_depth (firstn k ptr))%Z) ->
  copy_parenthesized ptr depth result = Undefined.
Proof.
  induction ptr as [|c ptr IH]; intros depth result H.
  - specialize (H 0 (le_n 0)). simpl in *.
    replace (depth =? 0)%Z with false by (symmetry; apply Z.eqb_neq; lia).
    reflexivity.
  - pose proof (H 0 (Nat.le_0_l _)) as H0. cbn [firstn paren_depth] in H0.
    cbn [copy_parenthesized].
    replace (depth =? 0)%Z with false by (symmetry; apply Z.eqb_neq; lia).
    apply IH. intros k Hk.
    specialize (H (S k) ltac:(simpl; lia)). cbn [firstn paren_depth] in H.
    destruct (Ascii.eqb c "("); [lia|]. destruct (Ascii.eqb c ")"); lia.
Qed.

(** For a template parameter whose tail, after its whitespace, opens a
    parenthesis that no later parenthesis of the buffer closes, the copy of
    the group runs past the end of the buffer. *)
Theorem template_parameter_unclosed_group :
  forall cur ptr result begin_offset spaces rest,
  is_templ_param cur = true ->
  clang_getTemplateCursorKind cur <> CXCursor_FunctionDecl ->
  ptr = spaces ++ "("%char :: rest ->
  Forall (fun x => isspace x = true) spaces ->
  never_closes rest = true ->
  fixup cur ptr result begin_offset = Undefined.
Proof.
  intros cur ptr result b spaces rest Htp Ht -> Hsp Hopen.
  destruct (templ_param_kind_tests cur Htp Ht) as [Hfun Hclass].
  unfold fixup. rewrite Hfun, Hclass, Htp. cbn [and_then bind].
  rewrite (skip_spaces_spec spaces "(" rest Hsp eq_refl). cbn [bind].
  change (Ascii.eqb "(" "(") with true. cbn iota.
  rewrite copy_parenthesized_never_closes; [reflexivity|].
  intros k Hk. unfold never_closes in Hopen. rewrite forallb_forall in Hopen.
  apply Z.ltb_lt. apply Hopen. apply in_seq. lia.
Qed.

(** ** The macro rule applied again *)

(** The macro rule is idempotent: the text reconstructed for a macro
    definition is returned unchanged when it is reconstructed again, whatever
    the tail. *)
Theorem macro_rule_idempotent :
  forall cur ptr ptr' result begin_offset begin_offset' r,
  clang_getCursorKind cur = CXCursor_MacroDefinition ->
  clang_getTemplateCursorKind cur <> CXCursor_FunctionDecl ->
  fixup cur ptr result begin_offset = Ok r ->
  fixup cur ptr' r begin_offset' = Ok r.
Proof.
  intros cur ptr ptr' result b b' r Hk Ht H.
  rewrite (macro_fixup cur ptr result b Hk Ht) in H.
  rewrite (macro_fixup cur ptr' r b' Hk Ht). injection H as <-.
  destruct (macro_scan (rev result)) eqn:E.
  - rewrite rev_app_distr. reflexivity.
  - now rewrite E.
Qed.

(** ** The reconstructed text and the buffer *)

Lemma kind_eqb_true : forall a b, kind_eqb a b = true -> a = b.
Proof.
  intros a b. unfold kind_eqb.
  destruct (CXCursorKind_eq_dec a b); [auto | discriminate].
Qed.

(** Without the function-body, class, template-parameter and macro rules,
    [fixup] appends a prefix of the tail and nothing else. *)
Lemma fixup_copies_tail : forall cur ptr result begin_offset r,
  is_class cur = false ->
  is_templ_param cur = false ->
  clang_getCursorKind cur <> CXCursor_MacroDefinition ->
  (is_function cur = true -> back result <> Ok "}"%char) ->
  fixup cur ptr result begin_offset = Ok r ->
  exists pre post, ptr = pre ++ post /\ r = result ++ pre.
Proof.
  intros cur ptr result b r Hclass Htp Hmacro Hbody H.
  destruct (staged_inv _ _ _ _ _ H) as [first [r1 [second [H1 [H2 [H3 H4]]]]]].
  destruct (first_stage_appends _ _ _ _ _ _ Hbody H1 H2) as [[-> _]|[_ Hc]];
    [|congruence].
  destruct (second_stage_appends _ _ _ _ _ _ Htp H3 H4) as [[Hd _]|[_ Hpre]];
    [|exact Hpre].
  exfalso. subst second. destruct (select_In _ _ _ _ H3) as [_ Hg].
  cbn [guard] in Hg. injection Hg as Hg. apply kind_eqb_true in Hg.
  contradiction.
Qed.

Lemma slice_tail : forall source begin_offset end_offset s,
  (0 <= begin_offset < end_offset)%Z ->
  slice source begin_offset end_offset = Ok s ->
  skipn (Z.to_nat begin_offset) source
  = s ++ skipn (Z.to_nat end_offset) source.
Proof.
  intros source b e s Hbe H. unfold slice in H.
  destruct (Z.leb_spec e (Z.of_nat (length source))); [|discriminate].
  injection H as <-.
  replace (Z.to_nat e) with (Z.to_nat (e - b) + Z.to_nat b) by lia.
  rewrite <- skipn_skipn. now rewrite firstn_skipn.
Qed.

(** For a cursor with a file that is no class, template parameter or macro
    definition, and no function whose slice ends with a closing brace, the
    reconstructed text is text of the source: it is exactly the characters of
    the buffer from the begin offset on, as many as the text is long.  The
    corrected range of [read_range] then covers the text it stands for. *)
Theorem read_source_is_buffer_text : forall tu cur file r,
  extent_file cur = Some file ->
  (0 <= extent_begin cur)%Z ->
  is_class cur = false ->
  is_templ_param cur = false ->
  clang_getCursorKind cur <> CXCursor_MacroDefinition ->
  (is_function cur = true ->
   forall s, slice (c_str (get_source tu)) (extent_begin cur) (extent_end cur)
             = Ok s ->
             back s <> Ok "}"%char) ->
  read_source tu cur = Ok r ->
  slice (c_str (get_source tu)) (extent_begin cur)
        (extent_begin cur + Z.of_nat (length r))
  = Ok r.
Proof.
  intros tu cur file r Hfile Hpos Hclass Htp Hmacro Hbody Hr.
  unfold read_source, get_range in Hr. rewrite Hfile in Hr.
  apply bind_Ok_inv in Hr. destruct Hr as [u1 [_ Hr]].
  apply bind_Ok_inv in Hr. destruct Hr as [u2 [Hgt Hr]].
  unfold assert in Hgt.
  destruct (Z.gtb_spec (extent_end cur) (extent_begin cur)) as [Hlt|];
    [|discriminate].
  apply bind_Ok_inv in Hr. destruct Hr as [s [Hs Hr]].
  pose proof (slice_tail _ _ _ _ (conj Hpos Hlt) Hs) as Htail.
  destruct (fixup_copies_tail _ _ _ _ _ Hclass Htp Hmacro
              (fun Hf => Hbody Hf s Hs) Hr) as [pre [post [Hptr ->]]].
  rewrite Hptr in Htail.
  assert (Hlen : length (c_str (get_source tu))
                 = Z.to_nat (extent_begin cur) + length (s ++ pre ++ post)).
  { rewrite <- Htail, length_skipn.
    unfold slice in Hs.
    destruct (Z.leb_spec (extent_end cur)
                (Z.of_nat (length (c_str (get_source tu))))); [lia|discriminate]. }
  rewrite !length_app in Hlen.
  unfold slice.
  replace (_ <=? _)%Z with true
    by (symmetry; apply Z.leb_le; rewrite length_app; lia).
  f_equal. rewrite Htail.
  replace (Z.to_nat (extent_begin cur + Z.of_nat (length (s ++ pre))
                     - extent_begin cur))
    with (length (s ++ pre) + 0) by lia.
  rewrite app_assoc. rewrite firstn_app_2. simpl. now rewrite app_nil_r.
Qed.

Lemma second_stage_nonempty : forall cur ptr result begin_offset second r,
  is_templ_param cur = false ->
  result <> [] ->
  select [Rule_c; Rule_d; Rule_e; Rule_f; Rule_g] cur result = Ok second ->
  apply_selected second cur ptr result begin_offset = Ok r ->
  r <> [].
Proof.
  intros cur ptr result b second r Htp Hne H3 H4.
  destruct (second_stage_appends _ _ _ _ _ _ Htp H3 H4)
    as [[_ [->| ->]]|[_ [pre [post [_ ->]]]]];
    try assumption; intros E; apply app_eq_nil in E; destruct E; contradiction.
Qed.

(** For a cursor that is no template parameter, the empty text is returned
    only when there is no file: a resolved cursor never reconstructs to the
    empty text. *)
Theorem empty_text_means_no_file : forall tu cur,
  is_templ_param cur = false ->
  (0 <= extent_begin cur)%Z ->
  read_source tu cur = Ok [] ->
  extent_file cur = None.
Proof.
  intros tu cur Htp Hpos Hr.
  destruct (extent_file cur) as [file|] eqn:Hfile; [exfalso|reflexivity].
  unfold read_source, get_range in Hr. rewrite Hfile in Hr.
  apply bind_Ok_inv in Hr. destruct Hr as [u1 [_ Hr]].
  apply bind_Ok_inv in Hr. destruct Hr as [u2 [Hgt Hr]].
  unfold assert in Hgt.
  destruct (Z.gtb_spec (extent_end cur) (extent_begin cur)) as [Hlt|];
    [|discriminate].
  apply bind_Ok_inv in Hr. destruct Hr as [s [Hs Hr]].
  destruct (slice_length _ _ _ _ (conj Hpos Hlt) Hs) as [Hlen _].
  assert (Hne : s <> []) by (intros ->; simpl in Hlen; lia).
  destruct (staged_inv _ _ _ _ _ Hr) as [first [r1 [second [H1 [H2 [H3 H4]]]]]].
  apply (second_stage_nonempty _ _ _ _ _ _ Htp) in H4; auto.
  destruct first as [rule|]; cbn [apply_selected] in H2.
  - destruct (select_In _ _ _ _ H1) as [Hin _].
    destruct Hin as [<-|[<-|[]]]; cbn [apply_rule] in H2.
    + apply bind_Ok_inv in H2. destruct H2 as [_ [_ H2]].
      apply bind_Ok_inv in H2. destruct H2 as [cut [_ H2]].
      injection H2 as <-. intros E. apply app_eq_nil in E.
      destruct E; discriminate.
    + injection H2 as <-. intros E. apply app_eq_nil in E.
      destruct E; discriminate.
  - injection H2 as <-. exact Hne.
Qed.

End Reconstruction.

(** ** The token stream *)

Lemma text_eqb_eq : forall a b, text_eqb a b = true <-> a = b.
Proof.
  intros a b. unfold text_eqb.
  destruct (list_eq_dec ascii_dec a b); split; congruence.
Qed.

Lemma skip_match : forall stream cur value,
  get_value (peek stream 0) = value ->
  skip stream cur value = (Ok tt, bump stream).
Proof.
  intros stream cur value H. unfold skip.
  rewrite (proj2 (text_eqb_eq _ _) H). reflexivity.
Qed.

Lemma skip_mismatch : forall stream cur value,
  get_value (peek stream 0) <> value ->
  skip stream cur value
  = (Throw {| error_location := source_location_of cur;
              error_message :=
                txt "expected '" ++ value ++ txt "' got '"
                    ++ get_value (peek stream 0) ++ txt "'" |},
     stream).
Proof.
  intros stream cur value H. unfold skip.
  destruct (text_eqb (get_value (peek stream 0)) value) eqn:E;
    [apply text_eqb_eq in E; contradiction | reflexivity].
Qed.

(** C8.  [skip] consumes the current token exactly when its text is the
    literal; otherwise it throws a [parse_error] that carries the location of
    the cursor, the expected literal and the text of the current token, and
    leaves the stream as it was.  Over a list of literals it skips each in
    order, skipping whitespace after each, and stops at the first mismatch:
    over the tokens [a], whitespace, [b] the literals [a], [b] are skipped
    without error, and over [a], whitespace, [c] the call fails with
    expected [b], got [c]. *)
Theorem skip_consumes_or_reports : forall stream cur value values,
  (get_value (peek stream 0) = value ->
   skip stream cur value = (Ok tt, bump stream)
   /\ skip_list stream cur (value :: values)
      = skip_list (skip_whitespace (bump stream)) cur values)
  /\ (get_value (peek stream 0) <> value ->
      let failure :=
        (Throw {| error_location := source_location_of cur;
                  error_message :=
                    txt "expected '" ++ value ++ txt "' got '"
                        ++ get_value (peek stream 0) ++ txt "'" |},
         stream) in
      skip stream cur value = failure
      /\ skip_list stream cur (value :: values) = failure)
  /\ skip_list [tok "a"; tok " "; tok "b"] cur [txt "a"; txt "b"] = (Ok tt, [])
  /\ skip_list [tok "a"; tok " "; tok "c"] cur [txt "a"; txt "b"]
     = (Throw {| error_location := source_location_of cur;
                 error_message := txt "expected 'b' got 'c'" |},
        [tok "c"]).
Proof.
  intros stream cur value values. split; [|split; [|split]].
  - intros H. cbn [skip_list]. rewrite (skip_match stream cur value H). auto.
  - intros H. cbn zeta. cbn [skip_list].
    rewrite (skip_mismatch stream cur value H). auto.
  - reflexivity.
  - reflexivity.
Qed.

(** ** The statements on the sample inputs *)

(** C1.  One call of [fixup] can apply two rules.  For the definition of a
    struct, whose extent ends before the terminator, the first statement of
    [fixup] selects the class rule (b), which appends the terminator, and the
    second statement then selects the last rule (g) on that text and copies
    the rest of the line, the terminator of the source: the text has two
    terminators, where the dispatch of exactly one rule stops after rule (b)
    and gives one. *)
Theorem struct_gets_two_rules :
  let tail := c_str (txt ";" ++ [newline]) in
  let result := txt "struct S { int x; }" in
  select libclang_isDeclaration [Rule_a; Rule_b] struct_S result
  = Ok (Some Rule_b)
  /\ select libclang_isDeclaration [Rule_c; Rule_d; Rule_e; Rule_f; Rule_g]
            struct_S (result ++ [";"%char])
     = Ok (Some Rule_g)
  /\ fixup libclang_isDeclaration struct_S tail result 0
     = Ok (txt "struct S { int x; };;")
  /\ spec_fixup libclang_isDeclaration struct_S tail result 0
     = Ok (txt "struct S { int x; };")
  /\ fixup libclang_isDeclaration struct_S tail result 0
     <> spec_fixup libclang_isDeclaration struct_S tail result 0.
Proof.
  cbv zeta. repeat (split; [reflexivity|]).
  vm_compute. discriminate.
Qed.

Lemma fixup_single_dispatch_witness :
  select libclang_isDeclaration [Rule_a; Rule_b] (leaf CXCursor_TypeAliasDecl)
         (txt "using T") = Ok None
  /\ fixup libclang_isDeclaration (leaf CXCursor_TypeAliasDecl)
           (c_str (txt " = int; // T")) (txt "using T") 0
     = spec_fixup libclang_isDeclaration (leaf CXCursor_TypeAliasDecl)
                  (c_str (txt " = int; // T")) (txt "using T") 0
  /\ spec_fixup libclang_isDeclaration (leaf CXCursor_TypeAliasDecl)
                (c_str (txt " = int; // T")) (txt "using T") 0
     = Ok (txt "using T = int;").
Proof.
  split; [reflexivity|]. split; [|reflexivity].
  refine (proj1 (proj1
    (fixup_single_dispatch libclang_isDeclaration
       (leaf CXCursor_TypeAliasDecl) (c_str (txt " = int; // T"))
       (txt "using T") 0%Z) _)).
  reflexivity.
Defined.

(** C2.  On a function definition followed by a comment on its line, the
    reconstructed text is the slice cut at the body, one terminator, and then
    the comment: it is not the cut slice with its terminator, and it does not
    end with the terminator. *)
Theorem function_definition_keeps_rest_of_line :
  let result := txt "int f(int x) { return x; }" in
  slice (c_str (get_source function_unit)) 0 26 = Ok result
  /\ firstn 13 result ++ [";"%char] = txt "int f(int x) ;"
  /\ read_source libclang_isDeclaration function_unit function_f
     = Ok (txt "int f(int x) ; // identity")
  /\ back (txt "int f(int x) ; // identity") = Ok "y"%char.
Proof. cbv zeta. repeat split; reflexivity. Qed.

Example function_body_is_cut_at_line_end :
  fixup libclang_isDeclaration function_f (c_str (newline :: txt "int y;"))
        (txt "int f(int x) { return x; }") 0
  = Ok (txt "int f(int x) ;").
Proof.
  apply (function_body_is_cut libclang_isDeclaration function_f
           (c_str (newline :: txt "int y;")) (txt "int f(int x) { return x; }")
           0%Z [leaf CXCursor_ParmDecl] (body_at 13) []).
  - reflexivity.
  - reflexivity.
  - discriminate.
  - reflexivity.
  - reflexivity.
  - repeat constructor.
  - reflexivity.
  - unfold unsigned_range, UINT_MODULUS. lia.
  - unfold unsigned_range, UINT_MODULUS. simpl. lia.
  - simpl. lia.
  - simpl. tauto.
Qed.

(** C3.  On a class definition whose extent ends before its terminator, the
    reconstructed text ends with two terminators: the one the class rule
    appends and the one of the source, copied with the rest of the line. *)
Theorem class_definition_gets_two_terminators :
  slice (c_str (get_source struct_unit)) 0 19 = Ok (txt "struct S { int x; }")
  /\ read_source libclang_isDeclaration struct_unit struct_S
     = Ok (txt "struct S { int x; };;").
Proof. split; reflexivity. Qed.

Example class_terminator_rule_at_line_end :
  exists r,
    fixup libclang_isDeclaration struct_S (c_str []) (txt "struct S { int x; }") 0
    = Ok r
    /\ back r = Ok ";"%char
    /\ fixup libclang_isDeclaration struct_S (c_str []) r 0 = Ok r.
Proof.
  apply (class_terminator_rule libclang_isDeclaration struct_S (c_str [])
           (txt "struct S { int x; }") 0%Z).
  - reflexivity.
  - reflexivity.
  - discriminate.
  - simpl. tauto.
  - reflexivity.
Qed.

(** C4.  On a function declaration whose terminator is not in the text that
    follows its extent, the scan of the function branch finds no terminator
    in the buffer and runs past its end; the tokenizer appends its newline to
    the reconstructed text only after that scan. *)
Theorem scan_for_terminator_leaves_buffer :
  ~ In ";"%char (c_str (get_source macro_terminated_unit))
  /\ read_source libclang_isDeclaration macro_terminated_unit macro_terminated_f
     = Undefined
  /\ tokenizer_source libclang_isDeclaration macro_terminated_unit
                      macro_terminated_f
     = Undefined.
Proof.
  split; [|split; reflexivity].
  vm_compute. intros H.
  repeat (destruct H as [H|H]; [discriminate H|]). exact H.
Qed.

Example function_declaration_scan :
  fixup libclang_isDeclaration macro_terminated_f (c_str (txt " = delete;"))
        (txt "void f()") 0
  = Ok (txt "void f() = delete;").
Proof.
  refine (proj1 (proj1 (proj2
    (forward_scans_within_tail libclang_isDeclaration macro_terminated_f
       (c_str (txt " = delete;")) (txt "void f()") 0%Z None (txt "void f()")
       _ _) Rule_e _ _) _)).
  - reflexivity.
  - reflexivity.
  - now left.
  - reflexivity.
  - simpl. tauto.
Qed.

Lemma macro_appends_one_closing_parenthesis_witness :
  fixup libclang_isDeclaration (leaf CXCursor_MacroDefinition) (c_str [])
        (txt "#define A foo((bar") 0
  = Ok (txt "#define A foo((bar)").
Proof.
  refine (proj1 (proj2
    (macro_appends_one_closing_parenthesis libclang_isDeclaration
       (leaf CXCursor_MacroDefinition) (c_str []) (txt "#define A foo((bar")
       0%Z _ _)) (txt "#define A foo(") (txt "bar") _ _).
  - reflexivity.
  - discriminate.
  - reflexivity.
  - repeat constructor; discriminate.
Defined.



Lemma read_source_without_file_witness :
  read_source libclang_isDeclaration struct_unit builtin_macro = Ok [].
Proof.
  apply (read_source_without_file libclang_isDeclaration struct_unit
           builtin_macro).
  reflexivity.
Defined.

Lemma skip_consumes_or_reports_witness :
  skip [tok "a"; tok " "; tok "b"] function_f (txt "a")
  = (Ok tt, [tok " "; tok "b"]).
Proof.
  refine (proj1 (proj1
    (skip_consumes_or_reports [tok "a"; tok " "; tok "b"] function_f (txt "a") [])
    _)).
  reflexivity.
Defined.

Lemma range_assertions_witness :
  read_source libclang_isDeclaration struct_unit
              (Cursor CXCursor_StructDecl CXCursor_NoDeclFound (Some 1) 19 19 [])
  = Abort.
Proof.
  refine (proj1
    (range_assertions libclang_isDeclaration struct_unit
       (Cursor CXCursor_StructDecl CXCursor_NoDeclFound (Some 1) 19 19 [])
       [] [] 0%Z 1 []) _ _).
  - reflexivity.
  - simpl. lia.
Defined.

Lemma read_range_covers_reconstructed_text_witness :
  exists source,
    read_source libclang_isDeclaration struct_unit struct_S = Ok source
    /\ Some 1 = extent_file struct_S
    /\ 0%Z = extent_begin struct_S
    /\ 21%Z = (0 + Z.of_nat (length source))%Z
    /\ (Some 1 = None -> 21%Z = 0%Z).
Proof.
  apply (read_range_covers_reconstructed_text libclang_isDeclaration
           struct_unit struct_S (Some 1) 0%Z 21%Z).
  - unfold unsigned_range, UINT_MODULUS. simpl. lia.
  - simpl. lia.
  - reflexivity.
Defined.

(** * Further properties of the token helpers *)

Lemma skip_whitespace_split : forall stream,
  exists ws,
    stream = ws ++ skip_whitespace stream
    /\ forallb is_whitespace ws = true.
Proof.
  induction stream as [|t rest [ws [E Hws]]].
  - exists []. split; reflexivity.
  - cbn [skip_whitespace peek nth].
    destruct (isspace (front (get_value t))) eqn:Ht.
    + exists (t :: ws). split.
      * simpl. now rewrite <- E.
      * simpl. unfold is_whitespace at 1. now rewrite Ht.
    + exists []. split; reflexivity.
Qed.

Lemma skip_whitespace_stops : forall stream,
  is_whitespace (peek (skip_whitespace stream) 0) = false.
Proof.
  induction stream as [|t rest IH].
  - reflexivity.
  - cbn [skip_whitespace peek nth].
    destruct (isspace (front (get_value t))) eqn:Ht; [exact IH|].
    exact Ht.
Qed.

Lemma skip_whitespace_fixed : forall stream,
  is_whitespace (peek stream 0) = false -> skip_whitespace stream = stream.
Proof.
  intros [|t rest] H; [reflexivity|].
  cbn [skip_whitespace peek nth]. unfold is_whitespace in H.
  cbn [peek nth] in H. now rewrite H.
Qed.

(** [skip_whitespace] consumes exactly the leading whitespace tokens: what it
    drops are whitespace tokens, the token it stops at is none (at the end of
    the stream, the end-of-input token), and skipping again changes
    nothing. *)
Theorem skip_whitespace_consumes_leading_whitespace : forall stream,
  (exists ws,
     stream = ws ++ skip_whitespace stream
     /\ forallb is_whitespace ws = true)
  /\ is_whitespace (peek (skip_whitespace stream) 0) = false
  /\ skip_whitespace (skip_whitespace stream) = skip_whitespace stream.
Proof.
  intros stream. split; [apply skip_whitespace_split|].
  split; [apply skip_whitespace_stops|].
  apply skip_whitespace_fixed, skip_whitespace_stops.
Qed.

Lemma text_eqb_true : forall a b, text_eqb a b = true -> a = b.
Proof.
  intros a b. unfold text_eqb.
  destruct (list_eq_dec ascii_dec a b); [auto | discriminate].
Qed.

Lemma text_eqb_false : forall a b, text_eqb a b = false -> a <> b.
Proof.
  intros a b. unfold text_eqb.
  destruct (list_eq_dec ascii_dec a b); [discriminate | auto].
Qed.

Lemma text_eqb_same : forall a, text_eqb a a = true.
Proof.
  intros a. unfold text_eqb.
  destruct (list_eq_dec ascii_dec a a); [reflexivity | contradiction].
Qed.

Lemma text_eqb_diff : forall a b, a <> b -> text_eqb a b = false.
Proof.
  intros a b H. unfold text_eqb.
  destruct (list_eq_dec ascii_dec a b); [contradiction | reflexivity].
Qed.

(** [skip_if_token] answers [true] exactly when [skip] succeeds, and then
    leaves the stream where [skip] over the one-literal list leaves it; when
    it answers [false] the stream is untouched and [skip] would throw. *)
Theorem skip_if_token_agrees_with_skip : forall stream cur token,
  (fst (skip_if_token stream token) = true ->
   get_value (peek stream 0) = token
   /\ skip_list stream cur [token] = (Ok tt, snd (skip_if_token stream token)))
  /\ (fst (skip_if_token stream token) = false ->
      get_value (peek stream 0) <> token
      /\ snd (skip_if_token stream token) = stream
      /\ skip stream cur token
         = (Throw (mismatch cur token (get_value (peek stream 0))), stream)).
Proof.
  intros stream cur token. unfold skip_if_token, skip_list, skip, mismatch.
  destruct (text_eqb (get_value (peek stream 0)) token) eqn:E; cbn.
  - split; [|discriminate]. intros _.
    split; [now apply text_eqb_true | reflexivity].
  - split; [discriminate|]. intros _.
    split; [now apply text_eqb_false | split; reflexivity].
Qed.

(** Skipping a list of literals that is the concatenation of two lists is
    skipping the first and, if that succeeds, the second on the stream it
    leaves; a failure in the first is the failure of the whole. *)
Theorem skip_list_app : forall values1 values2 stream cur,
  skip_list stream cur (values1 ++ values2)
  = match skip_list stream cur values1 with
    | (Ok _, stream') => skip_list stream' cur values2
    | failure => failure
    end.
Proof.
  induction values1 as [|v values1 IH]; intros values2 stream cur.
  - reflexivity.
  - cbn [app skip_list].
    destruct (skip stream cur v) as [[u|e| |] s]; try reflexivity.
    apply IH.
Qed.

Lemma skip_outcome : forall stream cur value,
  skip stream cur value = (Ok tt, bump stream)
  \/ skip stream cur value
     = (Throw (mismatch cur value (get_value (peek stream 0))), stream).
Proof.
  intros stream cur value. unfold skip, mismatch.
  destruct (text_eqb (get_value (peek stream 0)) value); cbn; auto.
Qed.

Lemma bump_suffix : forall stream, exists t, stream = t ++ bump stream.
Proof.
  intros [|t rest]; [now exists [] | now exists [t]].
Qed.

(** Whatever [skip] over a list of literals does, the stream it leaves is a
    suffix of the stream it got, and it either succeeds or throws the
    mismatch of one of its literals against the token the stream is left
    at. *)
Theorem skip_list_leaves_suffix : forall values stream cur o stream',
  skip_list stream cur values = (o, stream') ->
  (exists consumed, stream = consumed ++ stream')
  /\ (o = Ok tt
      \/ exists v, In v values
                   /\ o = Throw (mismatch cur v (get_value (peek stream' 0)))).
Proof.
  induction values as [|v values IH]; intros stream cur o stream' H.
  - cbn in H. injection H as <- <-. split; [now exists [] | now left].
  - cbn [skip_list] in H.
    destruct (skip_outcome stream cur v) as [E|E]; rewrite E in H.
    + destruct (IH _ _ _ _ H) as [[consumed Hc] Ho].
      destruct (bump_suffix stream) as [t Ht].
      destruct (skip_whitespace_split (bump stream)) as [ws [Hws _]].
      split.
      * exists (t ++ ws ++ consumed).
        rewrite Ht at 1. rewrite Hws at 1. rewrite Hc at 1.
        now rewrite <- !app_assoc.
      * destruct Ho as [->|[v' [Hin ->]]]; [now left | right].
        exists v'. split; [now right | reflexivity].
    + injection H as <- <-. split; [now exists []|].
      right. exists v. split; [now left | reflexivity].
Qed.

(** [skip_attribute] leaves alone a stream that starts neither with two
    opening brackets nor with [__attribute__]: a single opening bracket is no
    attribute.  After [__attribute__] an opening parenthesis is required:
    without it the call throws the mismatch, and the keyword and the
    whitespace after it stay consumed. *)
Theorem skip_attribute_without_attribute :
  forall skip_bracket_count stream cur,
  (get_value (peek stream 0) <> txt "__attribute__" ->
   get_value (peek stream 0) <> txt "[" \/ get_value (peek stream 1) <> txt "[" ->
   skip_attribute skip_bracket_count stream cur = (Ok tt, stream))
  /\ (get_value (peek stream 0) = txt "__attribute__" ->
      let stream' := skip_whitespace (bump stream) in
      get_value (peek stream' 0) <> txt "(" ->
      skip_attribute skip_bracket_count stream cur
      = (Throw (mismatch cur (txt "(") (get_value (peek stream' 0))), stream')).
Proof.
  intros sbc stream cur. split.
  - intros Hattr Hbr. unfold skip_attribute, skip_if_token.
    rewrite (text_eqb_diff _ _ Hattr). cbn [negb].
    destruct Hbr as [H|H]; rewrite (text_eqb_diff _ _ H);
      rewrite ?andb_false_r; reflexivity.
  - intros Hattr stream' Hparen. unfold skip_attribute, skip_if_token.
    rewrite Hattr.
    change (text_eqb (txt "__attribute__") (txt "[")) with false.
    cbn [andb]. rewrite text_eqb_same. cbn [negb]. fold stream'.
    unfold skip. rewrite (text_eqb_diff _ _ Hparen). reflexivity.
Qed.

Lemma skip_whitespace_app : forall ws stream,
  forallb is_whitespace ws = true ->
  is_whitespace (peek stream 0) = false ->
  skip_whitespace (ws ++ stream) = stream.
Proof.
  induction ws as [|t ws IH]; intros stream Hws Hstop.
  - now apply skip_whitespace_fixed.
  - cbn [forallb] in Hws. apply andb_true_iff in Hws. destruct Hws as [Ht Hws].
    cbn [app skip_whitespace peek nth]. unfold is_whitespace in Ht.
    rewrite Ht. now apply IH.
Qed.

Lemma spaced_head : forall items rest,
  Forall (fun item => is_whitespace (fst item) = false) items ->
  is_whitespace (peek rest 0) = false ->
  is_whitespace (peek (spaced items rest) 0) = false.
Proof.
  intros [|[t ws] items] rest Hitems Hrest; [exact Hrest|].
  inversion Hitems as [|? ? Ht _]; subst. exact Ht.
Qed.

(** Over a stream in which each expected token is followed by any number of
    whitespace tokens, [skip] over the list of their texts succeeds and
    leaves exactly what follows them, provided neither the expected tokens
    nor the token that follows are whitespace. *)
Theorem skip_list_over_spaced_tokens : forall items rest cur,
  Forall (fun item => is_whitespace (fst item) = false) items ->
  Forall (fun item => forallb is_whitespace (snd item) = true) items ->
  is_whitespace (peek rest 0) = false ->
  skip_list (spaced items rest) cur (map (fun item => get_value (fst item)) items)
  = (Ok tt, rest).
Proof.
  induction items as [|[t ws] items IH]; intros rest cur Htok Hws Hrest.
  - reflexivity.
  - inversion Htok as [|? ? Ht Htok']; subst.
    inversion Hws as [|? ? Hw Hws']; subst.
    cbn [spaced map fst skip_list]. unfold skip.
    cbn [peek nth]. rewrite text_eqb_same. cbn [negb bump tl].
    rewrite skip_whitespace_app;
      [now apply IH | exact Hw | now apply spaced_head].
Qed.

(** * Properties of the bounds and of clamping *)

Section BoundsProperties.

Variable int : integer_type.
Hypothesis int_is_signed : is_signed int = true.
Hypothesis int_has_bits : (0 < width int)%Z.

Lemma pow2_double : forall w, (0 < w)%Z -> (2 ^ w = 2 * 2 ^ (w - 1))%Z.
Proof.
  intros w H. replace w with (Z.succ (w - 1)) at 1 by lia.
  apply Z.pow_succ_r. lia.
Qed.

Lemma static_cast_in_range : forall t x,
  (0 < width t)%Z -> in_range t x -> static_cast t x = x.
Proof.
  intros t x Hw [Hmin Hmax]. unfold static_cast, min_value, max_value in *.
  pose proof (pow2_double (width t) Hw) as Hd.
  assert (0 < 2 ^ (width t - 1))%Z by (apply Z.pow_pos_nonneg; lia).
  destruct (is_signed t).
  - rewrite Z.mod_small by lia. lia.
  - apply Z.mod_small. lia.
Qed.

Lemma promote_in_range : forall t x,
  standard_type int t ->
  in_range t x ->
  (0 < width (promote int t))%Z /\ in_range (promote int t) x.
Proof.
  intros t x [Hw Hrank] Hx. unfold promote.
  destruct (Nat.ltb_spec (rank t) (rank int)) as [Hlt|]; [|auto].
  specialize (Hrank Hlt).
  destruct (represents int t) eqn:Hrep.
  - split; [exact int_has_bits|].
    unfold represents in Hrep. apply andb_true_iff in Hrep.
    destruct Hrep as [Hmin Hmax]. apply Z.leb_le in Hmin, Hmax.
    unfold in_range in *. lia.
  - split; [exact int_has_bits|].
    assert (Hpow : (2 ^ (width t - 1) <= 2 ^ (width int - 1))%Z)
      by (apply Z.pow_le_mono_r; lia).
    assert (Hpow' : (2 ^ width t <= 2 ^ width int)%Z)
      by (apply Z.pow_le_mono_r; lia).
    unfold represents, min_value, max_value in Hrep.
    unfold in_range, min_value, max_value in *. cbn.
    rewrite int_is_signed in Hrep.
    destruct (is_signed t).
    + exfalso. apply andb_false_iff in Hrep.
      destruct Hrep as [Hrep|Hrep]; apply Z.leb_gt in Hrep; lia.
    + lia.
Qed.

Lemma common_type_same : forall t, common_type int t t = promote int t.
Proof.
  intros t. unfold common_type. cbv zeta.
  rewrite Bool.eqb_reflx, Nat.ltb_irrefl. reflexivity.
Qed.

(** Between operands of one type the comparison is the comparison of their
    values. *)
Lemma converted_same : forall T op u bound,
  standard_type int T ->
  in_range T u ->
  in_range T bound ->
  converted int T T op u bound = op u bound.
Proof.
  intros T op u bound HT Hu Hb. unfold converted. cbv zeta.
  rewrite common_type_same.
  destruct (promote_in_range T u HT Hu) as [Hw Hu'].
  destruct (promote_in_range T bound HT Hb) as [_ Hb'].
  now rewrite !static_cast_in_range.
Qed.

Lemma closed_interval_call : forall T lower upper u,
  standard_type int T ->
  in_range T lower -> in_range T upper -> in_range T u ->
  bounded_call int T T (closed_interval lower upper) u = true
  <-> (lower <= u <= upper)%Z.
Proof.
  intros T lower upper u HT Hl Hu Hv.
  unfold bounded_call, lower_call, upper_call, greater_equal_call,
    less_equal_call. cbn.
  rewrite !converted_same by assumption.
  rewrite andb_true_iff, Z.geb_le, Z.leb_le. lia.
Qed.

Lemma clamp_max_min : forall T lower upper val,
  standard_type int T ->
  in_range T lower -> in_range T upper -> in_range T val ->
  (lower <= upper)%Z ->
  clamp int T T (closed_interval lower upper) val
  = Z.max lower (Z.min val upper).
Proof.
  intros T lower upper val HT Hl Hu Hv H. unfold clamp. cbn.
  rewrite !converted_same by assumption.
  rewrite !static_cast_in_range by (assumption || apply HT).
  destruct (Z.ltb_spec val lower); [lia|].
  destruct (Z.gtb_spec val upper); lia.
Qed.

(** For a value of the type of the bounds: a [bounded] constraint with its
    lower bound below its upper bound accepts the values strictly between the
    bounds, rejects the values outside, and accepts each bound exactly when
    that bound is inclusive. *)
Theorem bounded_accepts_between_bounds : forall T b u,
  standard_type int T ->
  in_range T (get_lower_bound b) ->
  in_range T (get_upper_bound b) ->
  in_range T u ->
  (get_lower_bound b < get_upper_bound b)%Z ->
  ((get_lower_bound b < u < get_upper_bound b)%Z ->
   bounded_call int T T b u = true)
  /\ ((u < get_lower_bound b)%Z \/ (get_upper_bound b < u)%Z ->
      bounded_call int T T b u = false)
  /\ bounded_call int T T b (get_lower_bound b) = LowerInclusive b
  /\ bounded_call int T T b (get_upper_bound b) = UpperInclusive b.
Proof.
  intros T [li ui lower upper] u HT. cbn. intros Hl Hu Hv H.
  unfold bounded_call, lower_call, upper_call, greater_equal_call,
    greater_call, less_equal_call, less_call. cbn.
  repeat split.
  - intros Hb. destruct li, ui; rewrite !converted_same by assumption;
      apply andb_true_iff;
      rewrite ?Z.geb_le, ?Z.gtb_lt, ?Z.leb_le, ?Z.ltb_lt; lia.
  - intros Hb. apply not_true_is_false. intros E.
    destruct li, ui; rewrite !converted_same in E by assumption;
      apply andb_true_iff in E;
      rewrite ?Z.geb_le, ?Z.gtb_lt, ?Z.leb_le, ?Z.ltb_lt in E; lia.
  - destruct li, ui; rewrite !converted_same by assumption;
      rewrite ?Z.geb_leb, ?Z.gtb_ltb, ?Z.leb_refl, ?Z.ltb_irrefl; cbn;
      try reflexivity; (apply Z.leb_le || apply Z.ltb_lt); lia.
  - destruct li, ui; rewrite !converted_same by assumption;
      rewrite ?Z.geb_leb, ?Z.gtb_ltb, ?Z.leb_refl, ?Z.ltb_irrefl,
        ?andb_false_r, ?andb_true_r; cbn;
      try reflexivity; (apply Z.leb_le || apply Z.ltb_lt); lia.
Qed.

(** For a value of the type of the bounds and a closed interval whose lower
    bound is not above its upper bound, [clamp] brings every value into the
    interval, leaves the values of the interval as they are, takes the
    nearer bound for the others, and clamping twice is clamping once. *)
Theorem clamp_into_closed_interval : forall T lower upper val,
  standard_type int T ->
  in_range T lower -> in_range T upper -> in_range T val ->
  (lower <= upper)%Z ->
  let interval := closed_interval lower upper in
  bounded_call int T T interval (clamp int T T interval val) = true
  /\ (bounded_call int T T interval val = true ->
      clamp int T T interval val = val)
  /\ ((val < lower)%Z -> clamp int T T interval val = lower)
  /\ ((upper < val)%Z -> clamp int T T interval val = upper)
  /\ clamp int T T interval (clamp int T T interval val)
     = clamp int T T interval val.
Proof.
  intros T lower upper val HT Hl Hu Hv H interval. unfold interval.
  assert (Hc : in_range T (Z.max lower (Z.min val upper)))
    by (unfold in_range in *; lia).
  rewrite (clamp_max_min T lower upper val) by assumption.
  rewrite (clamp_max_min T lower upper _) by assumption.
  split.
  - apply closed_interval_call; try assumption. lia.
  - split; [intros E; apply closed_interval_call in E; try assumption; lia|].
    repeat split; lia.
Qed.

(** The bounds of an interval are not compared when it is made.  For a value
    of the type of the bounds, with the lower bound above the upper bound:
    no value is in the interval, [clamp] sends a value below the lower bound
    to the lower bound, and clamping that result again gives the upper
    bound. *)
Theorem clamp_with_inverted_bounds : forall T lower upper val,
  standard_type int T ->
  in_range T lower -> in_range T upper -> in_range T val ->
  (upper < lower)%Z ->
  (val < lower)%Z ->
  let interval := closed_interval lower upper in
  clamp int T T interval val = lower
  /\ clamp int T T interval (clamp int T T interval val) = upper
  /\ bounded_call int T T interval (clamp int T T interval val) = false.
Proof.
  intros T lower upper val HT Hl Hu Hv Hinv Hval interval. unfold interval.
  assert (H1 : clamp int T T (closed_interval lower upper) val = lower).
  { unfold clamp. cbn. rewrite !converted_same by assumption.
    rewrite !static_cast_in_range by (assumption || apply HT).
    destruct (Z.ltb_spec val lower); [reflexivity | lia]. }
  rewrite H1. split; [reflexivity|]. split.
  - unfold clamp. cbn. rewrite !converted_same by assumption.
    rewrite !static_cast_in_range by (assumption || apply HT).
    destruct (Z.ltb_spec lower lower); [lia|].
    destruct (Z.gtb_spec lower upper); [reflexivity | lia].
  - destruct (bounded_call int T T _ lower) eqn:E; [|reflexivity].
    apply closed_interval_call in E; try assumption. lia.
Qed.

(** For a value of the type of the bound, the clamping verifier makes the
    value satisfy its constraint and leaves the values that satisfy it: for
    [less_equal] it is the minimum with the bound, for [greater_equal] the
    maximum; for a closed interval with ordered bounds it is the composition
    of the two. *)
Theorem clamping_verifier_makes_valid : forall T lower upper val,
  standard_type int T ->
  in_range T lower -> in_range T upper -> in_range T val ->
  let at_most := {| less_equal_get_bound := upper |} in
  let at_least := {| greater_equal_get_bound := lower |} in
  verify_less_equal int T T val at_most = Z.min val upper
  /\ less_equal_call int T T at_most (verify_less_equal int T T val at_most)
     = true
  /\ verify_greater_equal int T T val at_least = Z.max val lower
  /\ greater_equal_call int T T at_least
       (verify_greater_equal int T T val at_least) = true
  /\ ((lower <= upper)%Z ->
      verify_closed_interval int T T val (closed_interval lower upper)
      = verify_greater_equal int T T
          (verify_less_equal int T T val at_most) at_least).
Proof.
  intros T lower upper val HT Hl Hu Hv at_most at_least.
  assert (Hle : verify_less_equal int T T val at_most = Z.min val upper).
  { unfold verify_less_equal, less_equal_call. cbn.
    rewrite converted_same by assumption.
    rewrite static_cast_in_range by (assumption || apply HT).
    destruct (Z.leb_spec val upper); cbn; lia. }
  assert (Hge : forall v, in_range T v ->
                          verify_greater_equal int T T v at_least
                          = Z.max v lower).
  { intros v Hvr. unfold verify_greater_equal, greater_equal_call. cbn.
    rewrite converted_same by assumption.
    rewrite static_cast_in_range by (assumption || apply HT).
    destruct (Z.geb_spec v lower); cbn; lia. }
  assert (Hmin : in_range T (Z.min val upper))
    by (unfold in_range in *; lia).
  assert (Hmax : in_range T (Z.max val lower))
    by (unfold in_range in *; lia).
  rewrite Hle, !Hge by assumption. split; [reflexivity|]. split.
  - unfold less_equal_call. cbn. rewrite converted_same by assumption.
    apply Z.leb_le. lia.
  - split; [reflexivity|]. split.
    + unfold greater_equal_call. cbn. rewrite converted_same by assumption.
      apply Z.geb_le. lia.
    + intros H. unfold verify_closed_interval.
      rewrite clamp_max_min by assumption. lia.
Qed.

End BoundsProperties.

(** With a value of another type than the bounds the operands are converted:
    against the [int] interval from -1 to 10, the [unsigned] value 5 lies
    below the converted lower bound, is not accepted, and is clamped to the
    converted -1. *)
Example clamp_unsigned_value_in_int_interval :
  bounded_call int32 uint32 int32 (closed_interval (-1) 10) 5 = false
  /\ clamp int32 uint32 int32 (closed_interval (-1) 10) 5 = 4294967295%Z
  /\ verify_less_equal int32 uint32 int32 5 {| less_equal_get_bound := -1 |}
     = 5%Z.
Proof. repeat split; reflexivity. Qed.

(** * The further statements on sample inputs *)

Lemma fixup_aborts_exactly_when_witness :
  fixup libclang_isDeclaration (leaf CXCursor_FunctionDecl) (c_str [])
        (txt "void f() {}") 0
  = Abort.
Proof.
  refine (proj2 (proj1
    (fixup_aborts_exactly_when libclang_isDeclaration
       (leaf CXCursor_FunctionDecl) (c_str []) (txt "void f() {}") 0%Z)) _).
  split; [reflexivity|]. split; [reflexivity|]. vm_compute. discriminate.
Defined.

Lemma fixup_only_appends_witness :
  exists suffix,
    txt "struct S { int x; };;" = txt "struct S { int x; }" ++ suffix.
Proof.
  apply (fixup_only_appends libclang_isDeclaration struct_S
           (c_str (txt ";" ++ [newline])) (txt "struct S { int x; }") 0%Z).
  - reflexivity.
  - discriminate.
  - reflexivity.
Defined.

Lemma declaration_extended_to_terminator_witness :
  exists copied rest,
    c_str (txt " = delete; // no copies") = copied ++ ";"%char :: rest
    /\ ~ In ";"%char copied
    /\ fixup libclang_isDeclaration (leaf CXCursor_FunctionDecl)
             (c_str (txt " = delete; // no copies")) (txt "void f()") 0
       = Ok (txt "void f()" ++ copied ++ [";"%char]).
Proof.
  apply (declaration_extended_to_terminator libclang_isDeclaration
           (leaf CXCursor_FunctionDecl)
           (c_str (txt " = delete; // no copies")) (txt "void f()") 0%Z
           ")"%char).
  - now left.
  - reflexivity.
  - reflexivity.
  - discriminate.
  - reflexivity.
  - discriminate.
  - discriminate.
  - simpl. tauto.
Defined.

Lemma fixup_leaves_excluded_kinds_witness :
  fixup libclang_isDeclaration (leaf CXCursor_ParmDecl) [] (txt "int x") 0
  = Ok (txt "int x").
Proof.
  apply (fixup_leaves_excluded_kinds libclang_isDeclaration
           (leaf CXCursor_ParmDecl) [] (txt "int x") 0%Z);
    reflexivity || discriminate.
Defined.

Lemma other_declaration_gets_rest_of_line_witness :
  exists copied stop rest,
    c_str (txt "; // five" ++ [newline] ++ txt "int y;")
    = copied ++ stop :: rest
    /\ (stop = newline \/ stop = zero)
    /\ ~ In newline copied /\ ~ In zero copied
    /\ fixup libclang_isDeclaration variable_x
             (c_str (txt "; // five" ++ [newline] ++ txt "int y;"))
             (txt "int x = 5") 0
       = Ok (txt "int x = 5" ++ copied).
Proof.
  apply (other_declaration_gets_rest_of_line libclang_isDeclaration variable_x
           (c_str (txt "; // five" ++ [newline] ++ txt "int y;"))
           (txt "int x = 5") 0%Z);
    try reflexivity; try discriminate.
  simpl. tauto.
Defined.

Lemma function_body_cut_outside_slice_witness :
  fixup libclang_isDeclaration
        (Cursor CXCursor_FunctionDecl CXCursor_NoDeclFound (Some 1) 0 11
                [body_at 100])
        (c_str []) (txt "void f() {}") 0
  = Undefined.
Proof.
  apply (function_body_cut_outside_slice libclang_isDeclaration
           (Cursor CXCursor_FunctionDecl CXCursor_NoDeclFound (Some 1) 0 11
                   [body_at 100])
           (c_str []) (txt "void f() {}") 0%Z [] (body_at 100) []).
  - reflexivity.
  - reflexivity.
  - reflexivity.
  - constructor.
  - reflexivity.
  - unfold unsigned_range, UINT_MODULUS. lia.
  - unfold unsigned_range, UINT_MODULUS. simpl. lia.
  - simpl. lia.
Defined.

Lemma template_parameter_unclosed_group_witness :
  fixup libclang_isDeclaration (leaf CXCursor_NonTypeTemplateParameter)
        (c_str (txt " (f(1), int B>")) (txt "decltype") 0
  = Undefined.
Proof.
  apply (template_parameter_unclosed_group libclang_isDeclaration
           (leaf CXCursor_NonTypeTemplateParameter)
           (c_str (txt " (f(1), int B>")) (txt "decltype") 0%Z
           (txt " ") (c_str (txt "f(1), int B>"))).
  - reflexivity.
  - discriminate.
  - reflexivity.
  - repeat constructor.
  - reflexivity.
Defined.

Lemma read_source_is_buffer_text_witness :
  slice (c_str (get_source variable_unit)) 0
        (0 + Z.of_nat (length (txt "int x = 5; // five")))
  = Ok (txt "int x = 5; // five").
Proof.
  apply (read_source_is_buffer_text libclang_isDeclaration variable_unit
           variable_x 1 (txt "int x = 5; // five")).
  - reflexivity.
  - simpl. lia.
  - reflexivity.
  - reflexivity.
  - discriminate.
  - discriminate.
  - reflexivity.
Defined.

Lemma empty_text_means_no_file_witness :
  extent_file builtin_macro = None.
Proof.
  apply (empty_text_means_no_file libclang_isDeclaration struct_unit
           builtin_macro).
  - reflexivity.
  - simpl. lia.
  - reflexivity.
Defined.

Lemma skip_if_token_agrees_with_skip_witness :
  get_value (peek [tok "const"; tok " "; tok "int"] 0) = txt "const"
  /\ skip_list [tok "const"; tok " "; tok "int"] function_f [txt "const"]
     = (Ok tt, [tok "int"]).
Proof.
  refine (proj1
    (skip_if_token_agrees_with_skip [tok "const"; tok " "; tok "int"]
       function_f (txt "const")) _).
  reflexivity.
Defined.

Lemma skip_list_leaves_suffix_witness :
  skip_list [tok "a"; tok " "; tok "c"; tok "d"] function_f [txt "a"; txt "b"]
  = (Throw (mismatch function_f (txt "b") (txt "c")), [tok "c"; tok "d"])
  /\ exists consumed,
       [tok "a"; tok " "; tok "c"; tok "d"] = consumed ++ [tok "c"; tok "d"].
Proof.
  split; [reflexivity|].
  refine (proj1
    (skip_list_leaves_suffix [txt "a"; txt "b"]
       [tok "a"; tok " "; tok "c"; tok "d"] function_f
       (Throw (mismatch function_f (txt "b") (txt "c")))
       [tok "c"; tok "d"] _)).
  reflexivity.
Defined.

Lemma skip_attribute_without_attribute_witness :
  skip_attribute no_bracket_count [tok "["; tok "x"; tok "]"] function_f
  = (Ok tt, [tok "["; tok "x"; tok "]"]).
Proof.
  refine (proj1
    (skip_attribute_without_attribute no_bracket_count
       [tok "["; tok "x"; tok "]"] function_f) _ _).
  - discriminate.
  - right. discriminate.
Defined.

Lemma macro_rule_idempotent_witness :
  fixup libclang_isDeclaration (leaf CXCursor_MacroDefinition) (c_str (txt "x"))
        (txt "#define A foo((bar)") 7
  = Ok (txt "#define A foo((bar)").
Proof.
  apply (macro_rule_idempotent libclang_isDeclaration
           (leaf CXCursor_MacroDefinition) (c_str []) (c_str (txt "x"))
           (txt "#define A foo((bar") 0%Z 7%Z (txt "#define A foo((bar)")).
  - reflexivity.
  - discriminate.
  - reflexivity.
Defined.

Lemma skip_list_over_spaced_tokens_witness :
  skip_list [tok "template"; tok " "; tok "<"; tok "typename"]
            function_f [txt "template"; txt "<"]
  = (Ok tt, [tok "typename"]).
Proof.
  apply (skip_list_over_spaced_tokens
           [(tok "template", [tok " "]); (tok "<", [])] [tok "typename"]
           function_f).
  - repeat constructor.
  - repeat constructor.
  - reflexivity.
Defined.

Lemma standard_int32 : standard_type int32 int32.
Proof. split; [reflexivity | simpl; lia]. Qed.

Lemma bounded_accepts_between_bounds_witness :
  bounded_call int32 int32 int32 (open_interval 0 10) 0
  = LowerInclusive (open_interval 0 10).
Proof.
  refine (proj1 (proj2 (proj2
    (bounded_accepts_between_bounds int32 eq_refl eq_refl int32
       (open_interval 0 10) 5 standard_int32 _ _ _ _)))).
  - vm_compute. split; discriminate.
  - vm_compute. split; discriminate.
  - vm_compute. split; discriminate.
  - vm_compute. reflexivity.
Defined.

Lemma clamp_into_closed_interval_witness :
  bounded_call int32 int32 int32 (closed_interval 0 10)
    (clamp int32 int32 int32 (closed_interval 0 10) 42) = true.
Proof.
  refine (proj1
    (clamp_into_closed_interval int32 eq_refl eq_refl int32 0 10 42
       standard_int32 _ _ _ _)).
  - vm_compute. split; discriminate.
  - vm_compute. split; discriminate.
  - vm_compute. split; discriminate.
  - lia.
Defined.

Lemma clamp_with_inverted_bounds_witness :
  clamp int32 int32 int32 (closed_interval 10 0) 5 = 10%Z
  /\ clamp int32 int32 int32 (closed_interval 10 0)
           (clamp int32 int32 int32 (closed_interval 10 0) 5) = 0%Z
  /\ bounded_call int32 int32 int32 (closed_interval 10 0)
       (clamp int32 int32 int32 (closed_interval 10 0) 5) = false.
Proof.
  apply (clamp_with_inverted_bounds int32 eq_refl eq_refl int32 10 0 5
           standard_int32).
  - vm_compute. split; discriminate.
  - vm_compute. split; discriminate.
  - vm_compute. split; discriminate.
  - lia.
  - lia.
Defined.

Lemma clamping_verifier_makes_valid_witness :
  verify_closed_interval int32 int32 int32 42 (closed_interval 0 10)
  = verify_greater_equal int32 int32 int32
      (verify_less_equal int32 int32 int32 42 {| less_equal_get_bound := 10 |})
      {| greater_equal_get_bound := 0 |}.
Proof.
  refine (proj2 (proj2 (proj2 (proj2
    (clamping_verifier_makes_valid int32 eq_refl eq_refl int32 0 10 42
       standard_int32 _ _ _)))) _).
  - vm_compute. split; discriminate.
  - vm_compute. split; discriminate.
  - vm_compute. split; discriminate.
  - lia.
Defined.
